(** * A shallow embedding of the RAG notebook
    (rag-azure-openai-cosmosdb-notebook.ipynb)

    The notebook has two pieces of control flow of its own:
    - [upsert_data_to_memory_store] (cell 4): load a JSON file, and for every
      item probe the store by id, skipping the item when the probe finds it and
      calling [memory.save_information] otherwise;
    - the conversation loop (cell 10): read a line, search, bind the first
      result into the chat prompt, stream the completion, until the line read
      is "exit".
    Everything else is a call into semantic-kernel or a cloud service.  Those
    collaborators are modelled as explicit oracles (records of functions) and
    every call is logged in a trace of events, so that statements about which
    calls are made, and in which order, are statements about a list. *)

From Stdlib Require Import String List ZArith QArith Bool Lia.
From stdpp Require Import base option list strings gmap sorting.
Import ListNotations.
Local Open Scope string_scope.
Local Open Scope list_scope.

(** ** Python exceptions *)

(** The exceptions the notebook's code can meet.  [except Exception] (cell 4)
    catches every class deriving from [Exception]; [KeyboardInterrupt] and
    [asyncio.CancelledError] derive from [BaseException] only. *)
Inductive PyExc : Type :=
| KeyError (key : string)          (* item["id"] on a dict without the key *)
| IndexError                       (* result[0] on an empty list *)
| EOFError                         (* input() at the end of stdin *)
| OSError (path : string)          (* open() on a missing or unreadable file *)
| JSONDecodeError                  (* json.load on text that is not JSON *)
| LookupMiss (id : string)         (* store.get on an id that is not stored *)
| ServiceError (msg : string)      (* any Exception of a collaborator *)
| KeyboardInterrupt
| CancelledError.

Definition is_Exception (e : PyExc) : bool :=
  match e with
  | KeyboardInterrupt | CancelledError => false
  | _ => true
  end.

(** ** Data *)

(** An embedding vector; relevance scores are rationals (only their order
    matters below). *)
Definition Vec : Type := list Q.

(** semantic-kernel's [MemoryRecord], as [save_information] builds it. *)
Record MemoryRecord : Type := mkMemoryRecord {
  mr_id : string;
  mr_text : string;
  mr_description : string;
  mr_additional_metadata : option string;
  mr_embedding : option Vec
}.

(** The collection [collection_name]: its documents in insertion order. *)
Definition Store : Type := list MemoryRecord.

(** One element of the JSON array in the data file, as [json.load] returns it:
    a dict from field names to strings. *)
Abbreviation Item := (gmap string string).

(** semantic-kernel's [MemoryQueryResult]. *)
Record MemoryQueryResult : Type := mkMemoryQueryResult {
  result_id : string;
  text : string;
  description : string;
  additional_metadata : option string;
  relevance : Q
}.

(** [sk.KernelArguments(query_term=..., db_record=...)]. *)
Record KernelArguments : Type := mkKernelArguments {
  query_term : string;
  db_record : option string
}.

(** Cell 14: [OpenAITextPromptExecutionSettings]. *)
Record ExecutionSettings : Type := mkExecutionSettings {
  service_id : string;
  max_tokens : nat;
  temperature : Q;
  top_p : Q
}.

(** Cells 15 and 16: the prompt function registered with the kernel. *)
Record KernelFunction : Type := mkKernelFunction {
  function_name : string;
  plugin_name : string;
  template : string;
  input_variables : list string;
  settings : ExecutionSettings
}.

(** What the notebook prints. *)
Inductive Printed : Type :=
| PSaved (n total : nat)    (* "Generating embeddings and saving new item: n / total" *)
| PSkipped (n total : nat)  (* "Skipping item already exits: n / total" *)
| PResult (txt : string) (score : Q) (metadata : option string)
                            (* cell 8: "Result is: ... Relevance Score: ... Full Record: ..." *)
| PCompletion (s : string)  (* cell 9: print(completions_result) *)
| PQuestion (query : string) (* cell 10: "Question:\n{query_term}\nResponse:" *)
| PFragment (s : string)    (* cell 10: print(str(completion[0]), end="") *)
| PNewlines.                (* cell 10: print("\n") *)

(** ** Events: every call that leaves the notebook *)
Inductive Event : Type :=
| EvOpen (path : string)
| EvGet (id : string)
| EvSaveInformation (id text description : string)
| EvEmbed (text : string)
| EvUpsert (r : MemoryRecord)
| EvPrint (p : Printed)
| EvInput (line : string)
| EvSearch (query : string)
| EvInvoke (f : KernelFunction) (args : KernelArguments)
| EvInvokeStream (f : KernelFunction) (args : KernelArguments)
| EvSleep (seconds : nat).

Definition Trace : Type := list Event.

(** ** The monad: state, trace and exceptions *)

Inductive Outcome (A : Type) : Type :=
| Returned (a : A)
| Raised (e : PyExc).
Arguments Returned {A} a.
Arguments Raised {A} e.

(** A computation runs from a state to an outcome, the state it leaves and the
    events it produced; a raise keeps the state and the events so far. *)
Definition M (St A : Type) : Type := St -> Outcome A * St * Trace.

Definition ret {St A} (a : A) : M St A := fun s => (Returned a, s, []).

Definition bind {St A B} (m : M St A) (f : A -> M St B) : M St B :=
  fun s =>
    match m s with
    | (Returned a, s1, t1) =>
        match f a s1 with
        | (r, s2, t2) => (r, s2, t1 ++ t2)
        end
    | (Raised e, s1, t1) => (Raised e, s1, t1)
    end.

Definition raise {St A} (e : PyExc) : M St A := fun s => (Raised e, s, []).

Definition emit {St} (ev : Event) : M St unit := fun s => (Returned tt, s, [ev]).

(** [try: m  except Exception: h] *)
Definition try_except_Exception {St A} (m : M St A) (h : M St A) : M St A :=
  fun s =>
    match m s with
    | (Raised e, s1, t1) =>
        if is_Exception e
        then match h s1 with (r, s2, t2) => (r, s2, t1 ++ t2) end
        else (Raised e, s1, t1)
    | done => done
    end.

Declare Scope py_scope.
Delimit Scope py_scope with py.
Notation "x <- m ;; k" := (bind m (fun x => k))
  (at level 100, m at next level, right associativity) : py_scope.
Notation "m ;;; k" := (bind m (fun _ => k))
  (at level 100, right associativity) : py_scope.
Local Open Scope py_scope.

Definition outcome {St A} (x : Outcome A * St * Trace) : Outcome A := fst (fst x).
Definition final {St A} (x : Outcome A * St * Trace) : St := snd (fst x).
Definition trace {St A} (x : Outcome A * St * Trace) : Trace := snd x.
Arguments outcome {St A} !x /.
Arguments final {St A} !x /.
Arguments trace {St A} !x /.

(** [d[key]] on a dict. *)
Definition getitem {St} (d : Item) (key : string) : M St string :=
  match d !! key with
  | Some v => ret v
  | None => raise (KeyError key)
  end.

Definition print {St} (p : Printed) : M St unit := emit (EvPrint p).

(** ** The collaborators of ingestion *)

(** Everything [upsert_data_to_memory_store] reaches outside itself.  The
    faults are oracles indexed by the loop counter [n] of the item being
    processed, so a run may fault at one item and not at the next. *)
Record World : Type := mkWorld {
  (* open(file=path, mode="r", encoding="utf-8") and f.read() *)
  open_file : string -> PyExc + string;
  (* json.load: the parsed array of items, or the parse error; the file is
     taken to hold an array of objects with string fields, as the sample data
     does *)
  json_load : string -> PyExc + list Item;
  (* the embedding provider's vector for a text *)
  embedding : string -> Vec;
  (* a fault of store.get other than the miss *)
  get_fault : nat -> string -> option PyExc;
  (* a fault of the embedding call *)
  embed_fault : nat -> string -> option PyExc;
  (* a fault of the storage write *)
  upsert_fault : nat -> MemoryRecord -> option PyExc
}.

(** *** The store *)

Fixpoint store_lookup (s : Store) (key : string) : option MemoryRecord :=
  match s with
  | [] => None
  | r :: rest => if String.eqb (mr_id r) key then Some r else store_lookup rest key
  end.

(** Replace the document with the record's id where it stands, or append. *)
Fixpoint store_upsert (s : Store) (r : MemoryRecord) : Store :=
  match s with
  | [] => [r]
  | r0 :: rest =>
      if String.eqb (mr_id r0) (mr_id r) then r :: rest
      else r0 :: store_upsert rest r
  end.

(** Modelled from the spec: [store.get] is semantic-kernel's Cosmos DB memory
    store, not code of the notebook.  It returns the stored record of the id;
    for an id that is not stored it raises (the notebook's comment in cell 4:
    "if the id doesn't exist, it throws an exception"), and any other fault of
    the storage layer is the oracle's. *)
Definition store_get (w : World) (n : nat) (key : string) : M Store MemoryRecord :=
  emit (EvGet key) ;;;
  fun s =>
    match get_fault w n key with
    | Some e => (Raised e, s, [])
    | None =>
        match store_lookup s key with
        | Some r => (Returned r, s, [])
        | None => (Raised (LookupMiss key), s, [])
        end
    end.

(** Modelled from the spec: [memory.save_information] is semantic-kernel's
    [SemanticTextMemory], not code of the notebook.  It "does two things:
    generate embeddings + upload the data to your database" (cell 4's text):
    the embedding is computed from [text], a provider fault propagates with
    nothing written, and the record is written whole, overwriting the document
    of the same id. *)
Definition save_information (w : World) (n : nat)
    (key txt descr : string) : M Store unit :=
  emit (EvSaveInformation key txt descr) ;;;
  emit (EvEmbed txt) ;;;
  match embed_fault w n txt with
  | Some e => raise e
  | None =>
      let data := mkMemoryRecord key txt descr None (Some (embedding w txt)) in
      emit (EvUpsert data) ;;;
      match upsert_fault w n data with
      | Some e => raise e
      | None => fun s => (Returned tt, store_upsert s data, [])
      end
  end.

(** ** Cell 4: [upsert_data_to_memory_store] *)

(** [bool(record)]: a MemoryRecord defines neither [__bool__] nor [__len__]. *)
Definition py_bool (r : MemoryRecord) : bool := true.

(** Lines 166-173:
<<
    try:
        already_created = bool(
            await store.get(collection_name, item["id"], with_embedding=True))
    except Exception:
        already_created = False
>> *)
Definition already_created (w : World) (n : nat) (item : Item) : M Store bool :=
  try_except_Exception
    (key <- getitem item "id" ;;
     r <- store_get w n key ;;
     ret (py_bool r))
    (ret false).

(** Lines 175-191: the two branches on [already_created]. *)
Definition save_new_item (w : World) (total n : nat) (item : Item) : M Store unit :=
  key <- getitem item "id" ;;
  txt <- getitem item "content" ;;
  descr <- getitem item "title" ;;
  save_information w n key txt descr ;;;
  print (PSaved n total).

Definition ingest_item (w : World) (total n : nat) (item : Item) : M Store unit :=
  created <- already_created w n item ;;
  if negb created
  then save_new_item w total n item
  else print (PSkipped n total).

(** Lines 161-163: [n = 0; for item in data: n += 1; ...]; [total] is
    [len(data)]. *)
Fixpoint ingest_loop (w : World) (total n : nat) (data : list Item) : M Store unit :=
  match data with
  | [] => ret tt
  | item :: rest =>
      ingest_item w total (S n) item ;;;
      ingest_loop w total (S n) rest
  end.

(** The per-item loop over a parsed input set. *)
Definition ingest (w : World) (data : list Item) : M Store unit :=
  ingest_loop w (length data) 0 data.

(** Lines 159-160: [with open(...) as f: data = json.load(f)]. *)
Definition load_data (w : World) (data_file_path : string) : M Store (list Item) :=
  emit (EvOpen data_file_path) ;;;
  match open_file w data_file_path with
  | inl e => raise e
  | inr contents =>
      match json_load w contents with
      | inl e => raise e
      | inr data => ret data
      end
  end.

Definition upsert_data_to_memory_store (w : World) (data_file_path : string)
    : M Store unit :=
  data <- load_data w data_file_path ;;
  ingest w data.

(** Two calls in succession: the second runs only when the first returned. *)
Definition ingest_twice (w1 w2 : World) (data : list Item) : M Store unit :=
  ingest w1 data ;;; ingest w2 data.

(** *** Reading a trace *)

Definition is_embed (ev : Event) : bool :=
  match ev with EvEmbed _ => true | _ => false end.
Definition is_upsert (ev : Event) : bool :=
  match ev with EvUpsert _ => true | _ => false end.
Definition is_get (ev : Event) : bool :=
  match ev with EvGet _ => true | _ => false end.

Definition embedding_calls (t : Trace) : nat := length (List.filter is_embed t).
Definition write_calls (t : Trace) : nat := length (List.filter is_upsert t).
Definition lookup_calls (t : Trace) : nat := length (List.filter is_get t).

(** Events that name an id: lookups, save calls and writes. *)
Definition touches (key : string) (ev : Event) : bool :=
  match ev with
  | EvGet k => String.eqb k key
  | EvSaveInformation k _ _ => String.eqb k key
  | EvUpsert r => String.eqb (mr_id r) key
  | _ => false
  end.

Definition writes_to (key : string) (ev : Event) : bool :=
  match ev with
  | EvSaveInformation k _ _ => String.eqb k key
  | EvUpsert r => String.eqb (mr_id r) key
  | _ => false
  end.

(** ** Cells 8 to 10: retrieval and grounded completion *)

(** The kernel's services as the notebook calls them.  [memory_search q] is
    [memory.search(collection_name, q)]: the results for a query against the
    collection as it stands during the session, or the fault of the embedding
    or storage call.  A stream is the fragments it yields and the fault that
    ends it, if any. *)
Record Kernel : Type := mkKernel {
  memory_search : string -> PyExc + list MemoryQueryResult;
  invoke : KernelFunction -> KernelArguments -> PyExc + string;
  invoke_stream : KernelFunction -> KernelArguments -> list string * option PyExc
}.

(** Cell 9, line 500. *)
Definition prompt : string :=
"
    You are a chatbot that can have a conversations about any topic related to the provided context.
    Give explicit answers from the provided context or say 'I don't know' if it does not have an answer.
    provided context: {{$db_record}}

    User: {{$query_term}}
    Chatbot:".

(** Cell 9, line 517 ([ai_model_id] is the deployment name of the environment). *)
Definition execution_settings : ExecutionSettings :=
  {| service_id := "chat_completion";
     max_tokens := 500;
     temperature := 0;
     top_p := 1 # 2 |}.

(** Cell 9, lines 535-557: [chat_prompt_template_config] and [chat_function]. *)
Definition chat_function : KernelFunction :=
  {| function_name := "ChatGPTFunc";
     plugin_name := "chatGPTPlugin";
     template := prompt;
     input_variables := ["db_record"; "query_term"];
     settings := execution_settings |}.

(** [await memory.search(collection_name, query_term)] *)
Definition search_memory {St} (k : Kernel) (query : string)
    : M St (list MemoryQueryResult) :=
  emit (EvSearch query) ;;;
  match memory_search k query with
  | inl e => raise e
  | inr result => ret result
  end.

(** [result[0]] *)
Definition index0 {St A} (result : list A) : M St A :=
  match result with
  | [] => raise IndexError
  | first :: _ => ret first
  end.

(** [async for completion in completions_result: print(str(completion[0]), end="")] *)
Fixpoint print_fragments {St} (fragments : list string) : M St unit :=
  match fragments with
  | [] => ret tt
  | f :: rest => print (PFragment f) ;;; print_fragments rest
  end.

Definition consume_stream {St} (stream : list string * option PyExc) : M St unit :=
  print_fragments (fst stream) ;;;
  match snd stream with
  | Some e => raise e
  | None => ret tt
  end.

(** Cells 8 and 9 (lines 462-463, 482-484, 566, 583), for a query term; the
    notebook's is [first_query]. *)
Definition grounded_response (k : Kernel) (query : string) : M unit unit :=
  result <- search_memory k query ;;
  shown <- index0 result ;;
  print (PResult (text shown) (relevance shown) (additional_metadata shown)) ;;;
  first <- index0 result ;;
  let args := mkKernelArguments query (additional_metadata first) in
  emit (EvInvoke chat_function args) ;;;
  match invoke k chat_function args with
  | inl e => raise e
  | inr completions_result => print (PCompletion completions_result)
  end.

Definition first_query : string := "What is Azure Database for Managed Instances?".

(** Cell 10, lines 631-637: the body of the loop after [input].  The call of
    [kernel.invoke_stream] is logged where the source makes it, before the
    question is printed; its fragments arrive when the stream is consumed. *)
Definition turn (k : Kernel) (line : string) : M unit unit :=
  result <- search_memory k line ;;
  first <- index0 result ;;
  let args := mkKernelArguments line (additional_metadata first) in
  emit (EvInvokeStream chat_function args) ;;;
  print (PQuestion line) ;;;
  consume_stream (invoke_stream k chat_function args) ;;;
  print PNewlines ;;;
  emit (EvSleep 5).

(** Cell 10, lines 628-630: [query_term = ""; while query_term != "exit":
    query_term = input("Enter a query: "); ...].  The state is what is left of
    stdin; every iteration reads one line, so the loop is a recursion on it. *)
Fixpoint conversation_loop (k : Kernel) (current : string) (stdin : list string)
    {struct stdin} : Outcome unit * list string * Trace :=
  if negb (String.eqb current "exit") then
    match stdin with
    | [] => (Raised EOFError, [], [])
    | line :: rest =>
        match turn k line tt with
        | (Returned _, _, t) =>
            match conversation_loop k line rest with
            | (r, remaining, t') => (r, remaining, EvInput line :: t ++ t')
            end
        | (Raised e, _, t) => (Raised e, rest, EvInput line :: t)
        end
    end
  else (Returned tt, stdin, []).

Definition conversation (k : Kernel) : M (list string) unit :=
  conversation_loop k "".

(** The completion calls of a trace: delivery mode (true for streaming),
    function and bound arguments. *)
Definition completion_call (ev : Event) : option (bool * KernelFunction * KernelArguments) :=
  match ev with
  | EvInvoke f args => Some (false, f, args)
  | EvInvokeStream f args => Some (true, f, args)
  | _ => None
  end.

Definition completion_calls (t : Trace) : list (bool * KernelFunction * KernelArguments) :=
  omap completion_call t.

Definition search_calls (t : Trace) : list string :=
  omap (fun ev => match ev with EvSearch q => Some q | _ => None end) t.

(** ** The store's similarity search *)

Section Search.

(** The collection's configured metric ("COS" in cell 3; "L2" and "IP" are the
    other choices), as the relevance of a stored vector for a query vector, and
    the store's rendering of a document into a result's [additional_metadata]. *)
Variable metric : Vec -> Vec -> Q.
Variable metadata_of : MemoryRecord -> option string.

Definition score (query_vector : Vec) (r : MemoryRecord) : option MemoryQueryResult :=
  match mr_embedding r with
  | Some v =>
      Some (mkMemoryQueryResult (mr_id r) (mr_text r) (mr_description r)
              (metadata_of r) (metric query_vector v))
  | None => None
  end.

(** Insert before the first result that is not more relevant. *)
Fixpoint insert_ranked (x : MemoryQueryResult) (l : list MemoryQueryResult)
    : list MemoryQueryResult :=
  match l with
  | [] => [x]
  | y :: rest =>
      if Qle_bool (relevance y) (relevance x)
      then x :: y :: rest
      else y :: insert_ranked x rest
  end.

Fixpoint rank (l : list MemoryQueryResult) : list MemoryQueryResult :=
  match l with
  | [] => []
  | x :: rest => insert_ranked x (rank rest)
  end.

(** Modelled from the spec: the store's vector search is Cosmos DB's, reached
    through semantic-kernel, not code of the notebook.  "search(collection,
    query_vector, top_k=1) -> ordered sequence of RetrievalResult, ordered by
    descending relevance under the collection's configured metric; ties broken
    by insertion order (stable)" (spec, 4.1). *)
Definition search (s : Store) (query_vector : Vec) (top_k : nat)
    : list MemoryQueryResult :=
  take top_k (rank (omap (score query_vector) s)).

(** Modelled from the spec: [retrieve] (spec, 4.3) embeds the query text and
    searches with it; the notebook's [memory.search(collection_name,
    query_term)] leaves [limit] at 1. *)
Definition retrieve (w : World) (s : Store) (query_text : string) (top_k : nat)
    : list MemoryQueryResult :=
  search s (embedding w query_text) top_k.

End Search.

(** The inner product ("IP"), one of the metrics of cell 3. *)
Fixpoint inner_product (u v : Vec) : Q :=
  match u, v with
  | a :: u', b :: v' => a * b + inner_product u' v'
  | _, _ => 0
  end.

Definition has_relevance (v : Q) (r : MemoryQueryResult) : bool :=
  Qeq_bool (relevance r) v.

(** ** Predicates on worlds, stores and items *)

(** No lookup faults for a reason other than the miss. *)
Definition lookups_reliable (w : World) : Prop :=
  forall n key, get_fault w n key = None.

(** Every fault of a lookup is an [Exception]. *)
Definition lookup_faults_are_Exceptions (w : World) : Prop :=
  forall n key e, get_fault w n key = Some e -> is_Exception e = true.

(** The embedding provider and the storage write never fault. *)
Definition providers_reliable (w : World) : Prop :=
  (forall n txt, embed_fault w n txt = None) /\
  (forall n r, upsert_fault w n r = None).

(** An item with the three fields the loop reads. *)
Definition well_formed (item : Item) : Prop :=
  is_Some (item !! "id") /\ is_Some (item !! "content") /\ is_Some (item !! "title").

(** The id has a document in the collection. *)
Definition stored (s : Store) (key : string) : Prop :=
  is_Some (store_lookup s key).

(** A record whose vector is the provider's embedding of its own text. *)
Definition consistent_record (w : World) (r : MemoryRecord) : Prop :=
  mr_embedding r = Some (embedding w (mr_text r)).

(** A store all of whose records are. *)
Definition consistent (w : World) (s : Store) : Prop :=
  Forall (consistent_record w) s.

(** The record [save_information] builds for an item. *)
Definition record_of (w : World) (key txt descr : string) : MemoryRecord :=
  mkMemoryRecord key txt descr None (Some (embedding w txt)).

(** ** Relations and predicates used in the statements *)

(** Every way [save_new_item] can end: a missing field, a provider fault, a
    write fault, or the whole record written. *)
Inductive save_result (w : World) (total n : nat) (item : Item) (s : Store)
    : Outcome unit * Store * Trace -> Prop :=
| save_missing_field (field : string) :
    item !! field = None ->
    save_result w total n item s (Raised (KeyError field), s, [])
| save_embed_fault (key txt descr : string) (e : PyExc) :
    item !! "id" = Some key ->
    embed_fault w n txt = Some e ->
    save_result w total n item s
      (Raised e, s, [EvSaveInformation key txt descr; EvEmbed txt])
| save_write_fault (key txt descr : string) (e : PyExc) :
    item !! "id" = Some key ->
    upsert_fault w n (record_of w key txt descr) = Some e ->
    save_result w total n item s
      (Raised e, s, [EvSaveInformation key txt descr; EvEmbed txt;
                     EvUpsert (record_of w key txt descr)])
| save_written (key txt descr : string) :
    item !! "id" = Some key ->
    item !! "content" = Some txt ->
    save_result w total n item s
      (Returned tt, store_upsert s (record_of w key txt descr),
       [EvSaveInformation key txt descr; EvEmbed txt;
        EvUpsert (record_of w key txt descr); EvPrint (PSaved n total)]).

(** Every way one iteration of the loop can end. *)
Inductive item_result (w : World) (total n : nat) (item : Item) (s : Store)
    : Outcome unit * Store * Trace -> Prop :=
| item_skipped (key : string) (r : MemoryRecord) :
    item !! "id" = Some key ->
    get_fault w n key = None ->
    store_lookup s key = Some r ->
    item_result w total n item s
      (Returned tt, s, [EvGet key; EvPrint (PSkipped n total)])
| item_interrupted (key : string) (e : PyExc) :
    item !! "id" = Some key ->
    get_fault w n key = Some e ->
    is_Exception e = false ->
    item_result w total n item s (Raised e, s, [EvGet key])
| item_without_id :
    item !! "id" = None ->
    item_result w total n item s (Raised (KeyError "id"), s, [])
| item_saved (key : string) (x : Outcome unit * Store * Trace) :
    item !! "id" = Some key ->
    (exists e, get_fault w n key = Some e /\ is_Exception e = true) \/
    (get_fault w n key = None /\ store_lookup s key = None) ->
    save_result w total n item s x ->
    item_result w total n item s (outcome x, final x, EvGet key :: trace x).

(** A write carries a whole record: the text and the vector of that text. *)
Definition whole_record_write (w : World) (ev : Event) : Prop :=
  match ev with
  | EvUpsert r => consistent_record w r
  | _ => True
  end.

(** What printing the fragments of a stream leaves in the trace. *)
Definition fragment_events (fragments : list string) : Trace :=
  map (fun f => EvPrint (PFragment f)) fragments.

(** A completion call that binds the top result of the search for its own
    query term into [db_record], on the notebook's prompt function. *)
Definition grounded_on_top_result (k : Kernel)
    (call : bool * KernelFunction * KernelArguments) : Prop :=
  snd (fst call) = chat_function /\
  exists r others,
    memory_search k (query_term (snd call)) = inr (r :: others) /\
    db_record (snd call) = additional_metadata r.

(** [b] may follow [a] in a ranking. *)
Definition ranks_before (a b : MemoryQueryResult) : Prop :=
  (relevance b <= relevance a)%Q.

(** ** Small worlds to run the definitions in *)

Definition mk_item (key title content : string) : Item :=
  <["id" := key]> (<["title" := title]> (<["content" := content]> ∅)).

Definition toy_embedding (txt : string) : Vec :=
  [inject_Z (Z.of_nat (String.length txt)); 1%Q].

Definition quiet_world (data : list Item) : World :=
  {| open_file := fun _ => inr "[...]";
     json_load := fun _ => inr data;
     embedding := toy_embedding;
     get_fault := fun _ _ => None;
     embed_fault := fun _ _ => None;
     upsert_fault := fun _ _ => None |}.

Definition item_sql : Item :=
  mk_item "1" "T" "Azure SQL Managed Instance is a managed SQL Server.".
Definition item_app : Item :=
  mk_item "2" "Azure App Service" "Azure App Service hosts web sites.".

Definition two_items : list Item := [item_sql; item_app].

(** The same id with another title and another content. *)
Definition item_sql_changed : Item :=
  mk_item "1" "Another title" "Another content altogether.".

Definition record_sql : MemoryRecord :=
  record_of (quiet_world []) "1"
    "Azure SQL Managed Instance is a managed SQL Server." "T".

(** A world in which the first lookup is interrupted from the keyboard. *)
Definition interrupted_world : World :=
  {| open_file := fun _ => inr "[...]";
     json_load := fun _ => inr two_items;
     embedding := toy_embedding;
     get_fault := fun n _ => if Nat.eqb n 1 then Some KeyboardInterrupt else None;
     embed_fault := fun _ _ => None;
     upsert_fault := fun _ _ => None |}.

(** A world whose embedding provider is down. *)
Definition no_embeddings_world : World :=
  {| open_file := fun _ => inr "[...]";
     json_load := fun _ => inr two_items;
     embedding := toy_embedding;
     get_fault := fun _ _ => None;
     embed_fault := fun _ _ => Some (ServiceError "embedding provider down");
     upsert_fault := fun _ _ => None |}.

(** A world whose storage answers no lookup at all. *)
Definition unreachable_world : World :=
  {| open_file := fun _ => inr "[...]";
     json_load := fun _ => inr two_items;
     embedding := toy_embedding;
     get_fault := fun _ _ => Some (ServiceError "storage unreachable");
     embed_fault := fun _ _ => None;
     upsert_fault := fun _ _ => None |}.

(** A world whose storage refuses the write of the second item. *)
Definition second_write_fails (data : list Item) : World :=
  {| open_file := fun _ => inr "[...]";
     json_load := fun _ => inr data;
     embedding := toy_embedding;
     get_fault := fun _ _ => None;
     embed_fault := fun _ _ => None;
     upsert_fault := fun n _ =>
       if Nat.eqb n 2 then Some (ServiceError "write refused") else None |}.

Definition item_db : Item :=
  mk_item "3" "Azure SQL Database" "Azure SQL Database is a relational database.".

Definition three_items : list Item := [item_sql; item_app; item_db].

Definition record_app : MemoryRecord :=
  record_of (quiet_world []) "2" "Azure App Service hosts web sites." "Azure App Service".

(** A world whose data file holds text that is not JSON. *)
Definition garbled_file_world : World :=
  {| open_file := fun _ => inr "{ not json";
     json_load := fun _ => inl JSONDecodeError;
     embedding := toy_embedding;
     get_fault := fun _ _ => None;
     embed_fault := fun _ _ => None;
     upsert_fault := fun _ _ => None |}.

(** A kernel over a store: retrieval by inner product of the toy embeddings,
    the record's description as its metadata, and a completion service that
    answers every prompt with the same two fragments. *)
Definition kernel_of (s : Store) : Kernel :=
  {| memory_search := fun q =>
       inr (retrieve inner_product (fun r => Some (mr_description r))
              (quiet_world []) s q 1);
     invoke := fun _ _ => inr "Hello!";
     invoke_stream := fun _ _ => (["Hello"; "!"], None) |}.

(** ** More readings of a trace, and more small worlds *)

(** The progress lines of lines 183-191: counter and total. *)
Definition progress_line (ev : Event) : option (nat * nat) :=
  match ev with
  | EvPrint (PSaved n total) => Some (n, total)
  | EvPrint (PSkipped n total) => Some (n, total)
  | _ => None
  end.

Definition progress_lines (t : Trace) : list (nat * nat) := omap progress_line t.

Definition is_save (ev : Event) : bool :=
  match ev with EvSaveInformation _ _ _ => true | _ => false end.

Definition save_calls (t : Trace) : nat := length (List.filter is_save t).

(** The record an item is saved as, when it has the three fields. *)
Definition record_of_item (w : World) (item : Item) : option MemoryRecord :=
  match item !! "id", item !! "content", item !! "title" with
  | Some key, Some txt, Some descr => Some (record_of w key txt descr)
  | _, _, _ => None
  end.

(** The first item of the input that carries the id. *)
Fixpoint first_with_id (key : string) (data : list Item) : option Item :=
  match data with
  | [] => None
  | item :: rest =>
      match item !! "id" with
      | Some k => if String.eqb k key then Some item else first_with_id key rest
      | None => first_with_id key rest
      end
  end.

(** The lines [input] returned, and the seconds slept. *)
Definition inputs_read (t : Trace) : list string :=
  omap (fun ev => match ev with EvInput line => Some line | _ => None end) t.

Definition sleep_seconds (t : Trace) : nat :=
  list_sum (omap (fun ev => match ev with EvSleep n => Some n | _ => None end) t).

(** The events of the turns of some lines, one after the other. *)
Definition turns_trace (k : Kernel) (lines : list string) : Trace :=
  flat_map (fun line => EvInput line :: trace (turn k line tt)) lines.

(** Items that lack a field. *)
Definition item_without_an_id : Item :=
  <["title" := "No id"]> (<["content" := "An item without an id."]> ∅).

Definition item_without_content : Item :=
  <["id" := "9"]> (<["title" := "No content"]> ∅).

Definition item_without_title : Item :=
  <["id" := "9"]> (<["content" := "An item without a title."]> ∅).

(** A world in which the lookup of the second item is interrupted. *)
Definition second_lookup_interrupted : World :=
  {| open_file := fun _ => inr "[...]";
     json_load := fun _ => inr two_items;
     embedding := toy_embedding;
     get_fault := fun n _ => if Nat.eqb n 2 then Some KeyboardInterrupt else None;
     embed_fault := fun _ _ => None;
     upsert_fault := fun _ _ => None |}.

(** A world whose embedding provider faults at the second item. *)
Definition second_embedding_fails : World :=
  {| open_file := fun _ => inr "[...]";
     json_load := fun _ => inr two_items;
     embedding := toy_embedding;
     get_fault := fun _ _ => None;
     embed_fault := fun n _ =>
       if Nat.eqb n 2 then Some (ServiceError "embedding refused") else None;
     upsert_fault := fun _ _ => None |}.

(** A kernel whose search faults on the query "down" and whose completion
    stream breaks after one fragment on the query "cut". *)
Definition flaky_kernel (s : Store) : Kernel :=
  {| memory_search := fun q =>
       if String.eqb q "down" then inl (ServiceError "search unavailable")
       else memory_search (kernel_of s) q;
     invoke := fun _ _ => inr "Hello!";
     invoke_stream := fun _ args =>
       if String.eqb (query_term args) "cut"
       then (["Hel"], Some (ServiceError "stream broken"))
       else (["Hello"; "!"], None) |}.

(** * Properties *)

(** Unfold the monad and the calls of one iteration. *)
Ltac run_monad :=
  unfold save_new_item, save_information, store_get, try_except_Exception,
    getitem, print, bind, ret, raise, emit, py_bool in *.

(** ** The store *)

Lemma store_lookup_upsert_eq (s : Store) (r : MemoryRecord) :
  store_lookup (store_upsert s r) (mr_id r) = Some r.
Proof.
  induction s as [|r0 s IH]; simpl.
  - now rewrite String.eqb_refl.
  - destruct (String.eqb (mr_id r0) (mr_id r)) eqn:E; simpl.
    + now rewrite String.eqb_refl.
    + now rewrite E.
Qed.

Lemma store_lookup_upsert_ne (s : Store) (r : MemoryRecord) (key : string) :
  mr_id r <> key ->
  store_lookup (store_upsert s r) key = store_lookup s key.
Proof.
  intros Hne. induction s as [|r0 s IH]; simpl.
  - apply String.eqb_neq in Hne. now rewrite Hne.
  - destruct (String.eqb (mr_id r0) (mr_id r)) eqn:E; simpl.
    + apply String.eqb_eq in E. rewrite E.
      apply String.eqb_neq in Hne. now rewrite Hne.
    + now rewrite IH.
Qed.

Lemma store_lookup_elem (s : Store) (key : string) (r : MemoryRecord) :
  store_lookup s key = Some r -> r ∈ s.
Proof.
  induction s as [|r0 s IH]; simpl; [discriminate|].
  destruct (String.eqb (mr_id r0) key).
  - intros [= ->]. apply list_elem_of_here.
  - intros Hl. apply list_elem_of_further, IH, Hl.
Qed.

Lemma stored_upsert (s : Store) (r : MemoryRecord) (key : string) :
  stored s key -> stored (store_upsert s r) key.
Proof.
  unfold stored. intros Hs.
  destruct (String.eqb (mr_id r) key) eqn:E.
  - apply String.eqb_eq in E. subst key. rewrite store_lookup_upsert_eq. eauto.
  - apply String.eqb_neq in E. now rewrite store_lookup_upsert_ne.
Qed.

Lemma consistent_upsert (w : World) (s : Store) (r : MemoryRecord) :
  consistent w s -> consistent_record w r -> consistent w (store_upsert s r).
Proof.
  unfold consistent. intros Hs Hr.
  induction Hs as [|r0 s H0 Hs IH]; simpl.
  - now constructor.
  - destruct (String.eqb (mr_id r0) (mr_id r)); now constructor.
Qed.

(** ** One item of the loop *)

(** The four ways the probe of lines 166-173 can end. *)
Lemma already_created_found (w : World) (n : nat) (item : Item) (s : Store)
    (key : string) (r : MemoryRecord) :
  item !! "id" = Some key ->
  get_fault w n key = None ->
  store_lookup s key = Some r ->
  already_created w n item s = (Returned true, s, [EvGet key]).
Proof.
  intros Hid Hf Hl. unfold already_created. run_monad.
  rewrite Hid. simpl. rewrite Hf, Hl. reflexivity.
Qed.

Lemma already_created_miss (w : World) (n : nat) (item : Item) (s : Store)
    (key : string) :
  item !! "id" = Some key ->
  get_fault w n key = None ->
  store_lookup s key = None ->
  already_created w n item s = (Returned false, s, [EvGet key]).
Proof.
  intros Hid Hf Hl. unfold already_created. run_monad.
  rewrite Hid. simpl. rewrite Hf, Hl. reflexivity.
Qed.

Lemma already_created_fault (w : World) (n : nat) (item : Item) (s : Store)
    (key : string) (e : PyExc) :
  item !! "id" = Some key ->
  get_fault w n key = Some e ->
  already_created w n item s
  = if is_Exception e then (Returned false, s, [EvGet key])
    else (Raised e, s, [EvGet key]).
Proof.
  intros Hid Hf. unfold already_created. run_monad.
  rewrite Hid. simpl. rewrite Hf. simpl. now destruct (is_Exception e).
Qed.

Lemma already_created_no_id (w : World) (n : nat) (item : Item) (s : Store) :
  item !! "id" = None ->
  already_created w n item s = (Returned false, s, []).
Proof.
  intros Hid. unfold already_created. run_monad. rewrite Hid. reflexivity.
Qed.

(** The probe finds the id: the item is skipped. *)
Lemma ingest_item_skip (w : World) (total n : nat) (item : Item) (s : Store)
    (key : string) (r : MemoryRecord) :
  item !! "id" = Some key ->
  get_fault w n key = None ->
  store_lookup s key = Some r ->
  ingest_item w total n item s
  = (Returned tt, s, [EvGet key; EvPrint (PSkipped n total)]).
Proof.
  intros Hid Hf Hl. unfold ingest_item, bind.
  rewrite (already_created_found _ _ _ _ _ _ Hid Hf Hl). reflexivity.
Qed.

(** The probe misses or faults with an [Exception]: the item is saved. *)
Lemma ingest_item_absent (w : World) (total n : nat) (item : Item) (s : Store)
    (key : string) :
  item !! "id" = Some key ->
  (exists e, get_fault w n key = Some e /\ is_Exception e = true) \/
  (get_fault w n key = None /\ store_lookup s key = None) ->
  ingest_item w total n item s
  = (emit (EvGet key) ;;; save_new_item w total n item) s.
Proof.
  intros Hid Hprobe. unfold ingest_item, bind at 1.
  destruct Hprobe as [(e & Hf & He) | (Hf & Hl)].
  - rewrite (already_created_fault _ _ _ _ _ _ Hid Hf), He. reflexivity.
  - rewrite (already_created_miss _ _ _ _ _ Hid Hf Hl). reflexivity.
Qed.

(** A well-formed item whose embedding and write succeed. *)
Lemma save_new_item_ok (w : World) (total n : nat) (item : Item) (s : Store)
    (key txt descr : string) :
  item !! "id" = Some key ->
  item !! "content" = Some txt ->
  item !! "title" = Some descr ->
  embed_fault w n txt = None ->
  upsert_fault w n (record_of w key txt descr) = None ->
  save_new_item w total n item s
  = (Returned tt, store_upsert s (record_of w key txt descr),
     [EvSaveInformation key txt descr; EvEmbed txt;
      EvUpsert (record_of w key txt descr); EvPrint (PSaved n total)]).
Proof.
  intros Hid Hc Ht He Hu. unfold record_of in *. run_monad.
  rewrite Hid, Hc, Ht. simpl. rewrite He. simpl. rewrite Hu. reflexivity.
Qed.

Lemma save_new_item_cases (w : World) (total n : nat) (item : Item) (s : Store) :
  save_result w total n item s (save_new_item w total n item s).
Proof.
  run_monad.
  destruct (item !! "id") as [key|] eqn:Hid; simpl;
    [|now apply (save_missing_field _ _ _ _ _ "id")].
  destruct (item !! "content") as [txt|] eqn:Hc; simpl;
    [|now apply (save_missing_field _ _ _ _ _ "content")].
  destruct (item !! "title") as [descr|] eqn:Ht; simpl;
    [|now apply (save_missing_field _ _ _ _ _ "title")].
  destruct (embed_fault w n txt) as [e|] eqn:He; simpl;
    [now apply save_embed_fault|].
  destruct (upsert_fault w n _) as [e|] eqn:Hu; simpl.
  - now apply (save_write_fault _ _ _ _ _ key txt descr e).
  - now apply save_written.
Qed.

Lemma ingest_item_cases (w : World) (total n : nat) (item : Item) (s : Store) :
  item_result w total n item s (ingest_item w total n item s).
Proof.
  destruct (item !! "id") as [key|] eqn:Hid.
  - destruct (get_fault w n key) as [e|] eqn:Hf.
    + destruct (is_Exception e) eqn:He.
      * rewrite (ingest_item_absent _ _ _ _ _ key Hid) by eauto.
        pose proof (save_new_item_cases w total n item s) as Hsave.
        unfold bind, emit.
        destruct (save_new_item w total n item s) as [[r s'] t] eqn:E.
        apply (item_saved _ _ _ _ _ key (r, s', t)); eauto.
      * unfold ingest_item, bind.
        rewrite (already_created_fault _ _ _ _ _ _ Hid Hf), He.
        now apply item_interrupted.
    + destruct (store_lookup s key) as [r|] eqn:Hl.
      * rewrite (ingest_item_skip _ _ _ _ _ _ _ Hid Hf Hl).
        now apply (item_skipped _ _ _ _ _ key r).
      * rewrite (ingest_item_absent _ _ _ _ _ key Hid) by eauto.
        pose proof (save_new_item_cases w total n item s) as Hsave.
        unfold bind, emit.
        destruct (save_new_item w total n item s) as [[r s'] t] eqn:E.
        apply (item_saved _ _ _ _ _ key (r, s', t)); eauto.
  - unfold ingest_item, bind.
    rewrite (already_created_no_id _ _ _ _ Hid). simpl.
    unfold save_new_item, getitem, bind. rewrite Hid. simpl.
    now apply item_without_id.
Qed.

(** ** The loop *)

Lemma ingest_loop_cons (w : World) (total n : nat) (item : Item)
    (rest : list Item) (s : Store) :
  ingest_loop w total n (item :: rest) s
  = match ingest_item w total (S n) item s with
    | (Returned _, s1, t1) =>
        match ingest_loop w total (S n) rest s1 with
        | (r, s2, t2) => (r, s2, t1 ++ t2)
        end
    | (Raised e, s1, t1) => (Raised e, s1, t1)
    end.
Proof. reflexivity. Qed.

Lemma lookup_calls_app (t1 t2 : Trace) :
  lookup_calls (t1 ++ t2) = lookup_calls t1 + lookup_calls t2.
Proof. unfold lookup_calls. now rewrite List.filter_app, length_app. Qed.

(** A stored id stays stored through one item, however the item ends. *)
Lemma ingest_item_stored (w : World) (total n : nat) (item : Item) (s : Store)
    (key : string) :
  stored s key -> stored (final (ingest_item w total n item s)) key.
Proof.
  intros Hs.
  destruct (ingest_item_cases w total n item s) as [| | |k x Hid Hp Hx]; simpl; auto.
  destruct Hx; simpl; auto using stored_upsert.
Qed.

Lemma ingest_loop_stored (w : World) (total : nat) (data : list Item) :
  forall (n : nat) (s : Store) (key : string),
    stored s key -> stored (final (ingest_loop w total n data s)) key.
Proof.
  induction data as [|item rest IH]; intros n s key Hs; [exact Hs|].
  rewrite ingest_loop_cons.
  pose proof (ingest_item_stored w total (S n) item s key Hs) as H1.
  destruct (ingest_item w total (S n) item s) as [[[[]|e] s1] t1]; simpl in *; auto.
  specialize (IH (S n) s1 key H1).
  destruct (ingest_loop w total (S n) rest s1) as [[r s2] t2]. exact IH.
Qed.

(** An item that the loop got past has an id, and the id is stored after it. *)
Lemma ingest_item_returned (w : World) (total n : nat) (item : Item) (s : Store) :
  outcome (ingest_item w total n item s) = Returned tt ->
  exists key, item !! "id" = Some key /\
              stored (final (ingest_item w total n item s)) key.
Proof.
  destruct (ingest_item_cases w total n item s)
    as [k r Hid Hf Hl| | |k x Hid Hp Hx]; simpl; try discriminate.
  - intros _. exists k. unfold stored. rewrite Hl. eauto.
  - destruct Hx as [| | |k' txt descr Hid' Hc]; simpl; try discriminate.
    intros _. exists k. split; [exact Hid|].
    assert (k' = k) as -> by congruence.
    unfold stored.
    change k with (mr_id (record_of w k txt descr)) at 2.
    rewrite store_lookup_upsert_eq. eauto.
Qed.

Lemma ingest_loop_returned (w : World) (total : nat) (data : list Item) :
  forall (n : nat) (s : Store),
    outcome (ingest_loop w total n data s) = Returned tt ->
    Forall (fun item => exists key, item !! "id" = Some key /\
              stored (final (ingest_loop w total n data s)) key) data.
Proof.
  induction data as [|item rest IH]; intros n s Hret; [constructor|].
  rewrite ingest_loop_cons in *.
  pose proof (ingest_item_returned w total (S n) item s) as H1.
  destruct (ingest_item w total (S n) item s) as [[[[]|e] s1] t1];
    simpl in *; [|discriminate].
  specialize (IH (S n) s1).
  pose proof (ingest_loop_stored w total rest (S n) s1) as Hmono.
  destruct (ingest_loop w total (S n) rest s1) as [[r s2] t2]; simpl in *.
  constructor.
  - destruct (H1 eq_refl) as (key & Hid & Hs). exists key.
    split; [exact Hid | exact (Hmono key Hs)].
  - apply IH, Hret.
Qed.

(** With reliable lookups, a run over items whose ids are all stored only
    probes: it returns, and leaves the store as it found it. *)
Lemma ingest_loop_all_stored (w : World) (total : nat) (data : list Item) :
  lookups_reliable w ->
  forall (n : nat) (s : Store),
    Forall (fun item => exists key, item !! "id" = Some key /\ stored s key) data ->
    outcome (ingest_loop w total n data s) = Returned tt /\
    final (ingest_loop w total n data s) = s /\
    embedding_calls (trace (ingest_loop w total n data s)) = 0 /\
    write_calls (trace (ingest_loop w total n data s)) = 0 /\
    lookup_calls (trace (ingest_loop w total n data s)) = length data.
Proof.
  intros Hrel. induction data as [|item rest IH]; intros n s Hall.
  - repeat split.
  - inversion Hall as [|? ? (key & Hid & [r Hl]) Hrest]; subst.
    rewrite ingest_loop_cons.
    rewrite (ingest_item_skip _ _ _ _ _ _ _ Hid (Hrel _ _) Hl).
    destruct (IH (S n) s Hrest) as (Ho & Hs & He & Hw & Hg).
    destruct (ingest_loop w total (S n) rest s) as [[r' s2] t2]; simpl in *.
    repeat split; auto.
    change (S (lookup_calls t2) = S (length rest)). now rewrite Hg.
Qed.

(** Scenario A of the spec: one record into an empty collection. *)
Example scenario_A :
  upsert_data_to_memory_store (quiet_world [item_sql]) "./src/data/text-sample.json" []
  = (Returned tt,
     [mkMemoryRecord "1" "Azure SQL Managed Instance is a managed SQL Server." "T"
        None (Some [inject_Z 51; 1%Q])],
     [EvOpen "./src/data/text-sample.json"; EvGet "1";
      EvSaveInformation "1" "Azure SQL Managed Instance is a managed SQL Server." "T";
      EvEmbed "Azure SQL Managed Instance is a managed SQL Server.";
      EvUpsert (mkMemoryRecord "1" "Azure SQL Managed Instance is a managed SQL Server." "T"
        None (Some [inject_Z 51; 1%Q]));
      EvPrint (PSaved 1 1)]).
Proof. vm_compute. reflexivity. Qed.

(** ** Idempotence of ingestion *)

(** C1.  Ingesting the same input set twice leaves the collection in the state
    the first run left it in, and the second run only probes: once the first
    run has returned, the second returns too with no embedding call and no
    write.  The second run's lookups are assumed to answer from the store (a
    faulting lookup is taken for a miss and re-embeds); the first run may meet
    any faults. *)
Theorem ingest_idempotent (w1 w2 : World) (data : list Item) (s : Store) :
  lookups_reliable w2 ->
  final (ingest_twice w1 w2 data s) = final (ingest w1 data s) /\
  (outcome (ingest w1 data s) = Returned tt ->
   outcome (ingest w2 data (final (ingest w1 data s))) = Returned tt /\
   final (ingest w2 data (final (ingest w1 data s))) = final (ingest w1 data s) /\
   embedding_calls (trace (ingest w2 data (final (ingest w1 data s)))) = 0 /\
   write_calls (trace (ingest w2 data (final (ingest w1 data s)))) = 0).
Proof.
  intros Hrel.
  assert (outcome (ingest w1 data s) = Returned tt ->
          outcome (ingest w2 data (final (ingest w1 data s))) = Returned tt /\
          final (ingest w2 data (final (ingest w1 data s))) = final (ingest w1 data s) /\
          embedding_calls (trace (ingest w2 data (final (ingest w1 data s)))) = 0 /\
          write_calls (trace (ingest w2 data (final (ingest w1 data s)))) = 0)
    as Hsecond.
  { intros Hret. unfold ingest in *.
    pose proof (ingest_loop_returned w1 (length data) data 0 s Hret) as Hall.
    destruct (ingest_loop_all_stored w2 (length data) data Hrel 0 _ Hall)
      as (Ho & Hs & He & Hw & _).
    auto. }
  split; [|exact Hsecond].
  unfold ingest_twice, bind.
  destruct (ingest w1 data s) as [[[[]|e] s1] t1] eqn:E1; simpl in *; [|reflexivity].
  destruct (Hsecond eq_refl) as (_ & Hs & _).
  destruct (ingest w2 data s1) as [[r2 s2] t2]. exact Hs.
Qed.

(** The run of scenario A twice over, in a world without faults. *)
Lemma ingest_idempotent_witness :
  lookups_reliable (quiet_world two_items) /\
  final (ingest_twice (quiet_world two_items) (quiet_world two_items) two_items [])
  = final (ingest (quiet_world two_items) two_items []) /\
  (outcome (ingest (quiet_world two_items) two_items []) = Returned tt ->
   outcome (ingest (quiet_world two_items) two_items
              (final (ingest (quiet_world two_items) two_items []))) = Returned tt /\
   final (ingest (quiet_world two_items) two_items
            (final (ingest (quiet_world two_items) two_items [])))
   = final (ingest (quiet_world two_items) two_items []) /\
   embedding_calls (trace (ingest (quiet_world two_items) two_items
            (final (ingest (quiet_world two_items) two_items [])))) = 0 /\
   write_calls (trace (ingest (quiet_world two_items) two_items
            (final (ingest (quiet_world two_items) two_items [])))) = 0).
Proof.
  assert (lookups_reliable (quiet_world two_items)) as H
    by (intros n key; reflexivity).
  exact (conj H (ingest_idempotent (quiet_world two_items) (quiet_world two_items)
                   two_items [] H)).
Defined.

(** ** The frame of ingestion: ids that are already stored *)

Lemma ingest_item_frame (w : World) (total n : nat) (item : Item) (s : Store)
    (key : string) (r : MemoryRecord) :
  lookups_reliable w ->
  store_lookup s key = Some r ->
  store_lookup (final (ingest_item w total n item s)) key = Some r /\
  List.existsb (writes_to key) (trace (ingest_item w total n item s)) = false.
Proof.
  intros Hrel Hl.
  destruct (ingest_item_cases w total n item s)
    as [k r0 Hid Hf Hl0|k e Hid Hf He| |k x Hid Hp Hx]; simpl; auto.
  destruct Hp as [(e & Hf & _)|(_ & Hmiss)]; [rewrite Hrel in Hf; discriminate|].
  assert (k <> key) as Hne by (intros ->; congruence).
  apply String.eqb_neq in Hne.
  destruct Hx as [field Hnone|k' txt descr e Hid' He|k' txt descr e Hid' Hu
                 |k' txt descr Hid' Hc]; simpl; auto;
    assert (k' = k) as -> by congruence; rewrite ?Hne; simpl; auto.
  split; [|reflexivity].
  rewrite store_lookup_upsert_ne; [exact Hl|].
  simpl. now apply String.eqb_neq.
Qed.

Lemma ingest_loop_frame (w : World) (total : nat) (data : list Item)
    (key : string) (r : MemoryRecord) :
  lookups_reliable w ->
  forall (n : nat) (s : Store),
    store_lookup s key = Some r ->
    store_lookup (final (ingest_loop w total n data s)) key = Some r /\
    List.existsb (writes_to key) (trace (ingest_loop w total n data s)) = false.
Proof.
  intros Hrel. induction data as [|item rest IH]; intros n s Hl; [now split|].
  rewrite ingest_loop_cons.
  destruct (ingest_item_frame w total (S n) item s key r Hrel Hl) as [H1 H2].
  destruct (ingest_item w total (S n) item s) as [[[[]|e] s1] t1];
    simpl in *; [|now split].
  destruct (IH (S n) s1 H1) as [H3 H4].
  destruct (ingest_loop w total (S n) rest s1) as [[r2 s2] t2]; simpl in *.
  split; [exact H3|]. now rewrite List.existsb_app, H2, H4.
Qed.

(** C9.  An id that is already stored is left alone by ingestion, whatever the
    input says about it: the record found under the id before the run is the
    record found after it, the run makes no [save_information] call and no
    write for the id, and an item carrying the id is skipped after the probe
    alone, so that its content and title are never read.  The lookup is
    assumed to answer from the store. *)
Theorem existing_id_is_left_alone (w : World) (data : list Item) (s : Store)
    (key : string) (r : MemoryRecord) :
  lookups_reliable w ->
  store_lookup s key = Some r ->
  store_lookup (final (ingest w data s)) key = Some r /\
  List.existsb (writes_to key) (trace (ingest w data s)) = false /\
  (forall (total n : nat) (item : Item),
     item !! "id" = Some key ->
     ingest_item w total n item s
     = (Returned tt, s, [EvGet key; EvPrint (PSkipped n total)])).
Proof.
  intros Hrel Hl.
  destruct (ingest_loop_frame w (length data) data key r Hrel 0 s Hl) as [H1 H2].
  repeat split; auto.
  intros total n item Hid.
  exact (ingest_item_skip w total n item s key r Hid (Hrel n key) Hl).
Qed.

Lemma existing_id_is_left_alone_witness :
  lookups_reliable (quiet_world []) /\
  store_lookup [record_sql] "1" = Some record_sql /\
  store_lookup (final (ingest (quiet_world []) [item_sql_changed; item_app] [record_sql])) "1"
  = Some record_sql /\
  List.existsb (writes_to "1")
    (trace (ingest (quiet_world []) [item_sql_changed; item_app] [record_sql])) = false /\
  (forall (total n : nat) (item : Item),
     item !! "id" = Some "1" ->
     ingest_item (quiet_world []) total n item [record_sql]
     = (Returned tt, [record_sql], [EvGet "1"; EvPrint (PSkipped n total)])).
Proof.
  assert (lookups_reliable (quiet_world [])) as H by (intros n key; reflexivity).
  assert (store_lookup [record_sql] "1" = Some record_sql) as Hl by reflexivity.
  exact (conj H (conj Hl
    (existing_id_is_left_alone (quiet_world []) [item_sql_changed; item_app]
       [record_sql] "1" record_sql H Hl))).
Defined.

Example changed_item_is_skipped :
  ingest (quiet_world []) [item_sql_changed; item_app] [record_sql]
  = (Returned tt,
     [record_sql;
      record_of (quiet_world []) "2" "Azure App Service hosts web sites." "Azure App Service"],
     [EvGet "1"; EvPrint (PSkipped 1 2);
      EvGet "2";
      EvSaveInformation "2" "Azure App Service hosts web sites." "Azure App Service";
      EvEmbed "Azure App Service hosts web sites.";
      EvUpsert (record_of (quiet_world []) "2" "Azure App Service hosts web sites."
                  "Azure App Service");
      EvPrint (PSaved 2 2)]).
Proof. vm_compute. reflexivity. Qed.

(** ** Faults of the existence check *)

(** A well-formed item whose lookup faults with an [Exception], in a world
    whose providers work: the item is embedded and written like a new one. *)
Lemma ingest_item_lookup_fault (w : World) (total n : nat) (item : Item)
    (s : Store) (key txt descr : string) (e : PyExc) :
  item !! "id" = Some key ->
  item !! "content" = Some txt ->
  item !! "title" = Some descr ->
  get_fault w n key = Some e ->
  is_Exception e = true ->
  embed_fault w n txt = None ->
  upsert_fault w n (record_of w key txt descr) = None ->
  ingest_item w total n item s
  = (Returned tt, store_upsert s (record_of w key txt descr),
     [EvGet key; EvSaveInformation key txt descr; EvEmbed txt;
      EvUpsert (record_of w key txt descr); EvPrint (PSaved n total)]).
Proof.
  intros Hid Hc Ht Hf He Hemb Hup.
  rewrite (ingest_item_absent w total n item s key Hid) by eauto.
  unfold bind, emit.
  now rewrite (save_new_item_ok w total n item s key txt descr).
Qed.

(** With working providers, a well-formed item always gets through, whatever
    its lookup does short of an interrupt, with exactly one lookup. *)
Lemma ingest_item_gets_through (w : World) (total n : nat) (item : Item) (s : Store) :
  lookup_faults_are_Exceptions w ->
  providers_reliable w ->
  well_formed item ->
  outcome (ingest_item w total n item s) = Returned tt /\
  lookup_calls (trace (ingest_item w total n item s)) = 1.
Proof.
  intros Hexc [Hemb Hup] ([key Hid] & [txt Hc] & [descr Ht]).
  destruct (get_fault w n key) as [e|] eqn:Hf.
  - rewrite (ingest_item_lookup_fault w total n item s key txt descr e); eauto.
  - destruct (store_lookup s key) as [r|] eqn:Hl.
    + now rewrite (ingest_item_skip w total n item s key r).
    + rewrite (ingest_item_absent w total n item s key Hid) by eauto.
      unfold bind, emit.
      now rewrite (save_new_item_ok w total n item s key txt descr).
Qed.

Lemma ingest_loop_gets_through (w : World) (total : nat) (data : list Item) :
  lookup_faults_are_Exceptions w ->
  providers_reliable w ->
  Forall well_formed data ->
  forall (n : nat) (s : Store),
    outcome (ingest_loop w total n data s) = Returned tt /\
    lookup_calls (trace (ingest_loop w total n data s)) = length data.
Proof.
  intros Hexc Hprov Hall. induction Hall as [|item rest Hwf Hall IH]; intros n s.
  - now split.
  - rewrite ingest_loop_cons.
    destruct (ingest_item_gets_through w total (S n) item s Hexc Hprov Hwf) as [H1 H2].
    destruct (ingest_item w total (S n) item s) as [[[[]|e] s1] t1];
      simpl in *; [|discriminate].
    destruct (IH (S n) s1) as [H3 H4].
    destruct (ingest_loop w total (S n) rest s1) as [[r2 s2] t2]; simpl in *.
    split; [exact H3|]. now rewrite lookup_calls_app, H2, H4.
Qed.

(** C4.  A lookup that faults with any [Exception] (what [except Exception]
    catches) is taken for a miss.  For the item: it is embedded and written,
    also over a record already stored under its id, and the iteration returns.
    For the run: in a world whose embedding provider and storage write work,
    a run over well-formed items returns whatever the lookups do, every item
    is probed, and every item's id is stored at the end. *)
Theorem lookup_fault_is_a_miss (w : World) :
  lookup_faults_are_Exceptions w ->
  (forall (total n : nat) (item : Item) (s : Store) (key txt descr : string)
          (e : PyExc),
     item !! "id" = Some key ->
     item !! "content" = Some txt ->
     item !! "title" = Some descr ->
     get_fault w n key = Some e ->
     embed_fault w n txt = None ->
     upsert_fault w n (record_of w key txt descr) = None ->
     ingest_item w total n item s
     = (Returned tt, store_upsert s (record_of w key txt descr),
        [EvGet key; EvSaveInformation key txt descr; EvEmbed txt;
         EvUpsert (record_of w key txt descr); EvPrint (PSaved n total)])) /\
  (providers_reliable w ->
   forall (data : list Item) (s : Store),
     Forall well_formed data ->
     outcome (ingest w data s) = Returned tt /\
     lookup_calls (trace (ingest w data s)) = length data /\
     Forall (fun item => exists key, item !! "id" = Some key /\
                         stored (final (ingest w data s)) key) data).
Proof.
  intros Hexc. split.
  - intros total n item s key txt descr e Hid Hc Ht Hf Hemb Hup.
    apply (ingest_item_lookup_fault w total n item s key txt descr e); auto.
    exact (Hexc n key e Hf).
  - intros Hprov data s Hall. unfold ingest.
    destruct (ingest_loop_gets_through w (length data) data Hexc Hprov Hall 0 s)
      as [H1 H2].
    repeat split; auto.
    now apply ingest_loop_returned.
Qed.

Lemma lookup_fault_is_a_miss_witness :
  lookup_faults_are_Exceptions unreachable_world /\
  providers_reliable unreachable_world /\
  Forall well_formed two_items /\
  outcome (ingest unreachable_world two_items [record_sql]) = Returned tt /\
  lookup_calls (trace (ingest unreachable_world two_items [record_sql])) = 2 /\
  Forall (fun item => exists key, item !! "id" = Some key /\
            stored (final (ingest unreachable_world two_items [record_sql])) key)
    two_items.
Proof.
  assert (lookup_faults_are_Exceptions unreachable_world) as Hexc
    by (intros n key e [= <-]; reflexivity).
  assert (providers_reliable unreachable_world) as Hprov
    by (split; intros; reflexivity).
  assert (Forall well_formed two_items) as Hwf
    by (repeat constructor; vm_compute; eauto).
  exact (conj Hexc (conj Hprov (conj Hwf
    (proj2 (lookup_fault_is_a_miss unreachable_world Hexc) Hprov
       two_items [record_sql] Hwf)))).
Defined.

Example unreachable_store_reembeds :
  ingest unreachable_world [item_sql] [record_sql]
  = (Returned tt, [record_sql],
     [EvGet "1";
      EvSaveInformation "1" "Azure SQL Managed Instance is a managed SQL Server." "T";
      EvEmbed "Azure SQL Managed Instance is a managed SQL Server.";
      EvUpsert record_sql; EvPrint (PSaved 1 1)]).
Proof. vm_compute. reflexivity. Qed.

(** What [except Exception] does not catch goes to the caller. *)
Example interrupt_is_not_caught :
  ingest interrupted_world two_items []
  = (Raised KeyboardInterrupt, [], [EvGet "1"]).
Proof. vm_compute. reflexivity. Qed.

(** ** Faults of the embedding provider *)

(** An item whose embedding call faults is not written, and the fault goes to
    the caller. *)
Example embedding_fault_writes_nothing :
  ingest no_embeddings_world two_items []
  = (Raised (ServiceError "embedding provider down"), [],
     [EvGet "1";
      EvSaveInformation "1" "Azure SQL Managed Instance is a managed SQL Server." "T";
      EvEmbed "Azure SQL Managed Instance is a managed SQL Server."]).
Proof. vm_compute. reflexivity. Qed.

(** ** Faults of the storage write *)

Lemma ingest_loop_app (w : World) (total : nat) (pre post : list Item) :
  forall (n : nat) (s : Store),
    ingest_loop w total n (pre ++ post) s
    = match ingest_loop w total n pre s with
      | (Returned _, s1, t1) =>
          match ingest_loop w total (n + length pre) post s1 with
          | (r, s2, t2) => (r, s2, t1 ++ t2)
          end
      | (Raised e, s1, t1) => (Raised e, s1, t1)
      end.
Proof.
  induction pre as [|item pre IH]; intros n s.
  - simpl. rewrite Nat.add_0_r.
    now destruct (ingest_loop w total n post s) as [[r s2] t2].
  - change ((item :: pre) ++ post) with (item :: (pre ++ post)).
    rewrite !ingest_loop_cons.
    destruct (ingest_item w total (S n) item s) as [[[[]|e] s1] t1]; [|reflexivity].
    rewrite IH.
    replace (n + length (item :: pre)) with (S n + length pre) by (simpl; lia).
    destruct (ingest_loop w total (S n) pre s1) as [[[[]|e] s2] t2]; [|reflexivity].
    destruct (ingest_loop w total (S n + length pre) post s2) as [[r s3] t3].
    now rewrite app_assoc.
Qed.

(** A new, well-formed item whose write faults: the iteration raises the
    fault after the embedding call, and the store is as before. *)
Lemma ingest_item_write_fault (w : World) (total n : nat) (item : Item)
    (s : Store) (key txt descr : string) (e : PyExc) :
  item !! "id" = Some key ->
  item !! "content" = Some txt ->
  item !! "title" = Some descr ->
  get_fault w n key = None ->
  store_lookup s key = None ->
  embed_fault w n txt = None ->
  upsert_fault w n (record_of w key txt descr) = Some e ->
  ingest_item w total n item s
  = (Raised e, s,
     [EvGet key; EvSaveInformation key txt descr; EvEmbed txt;
      EvUpsert (record_of w key txt descr)]).
Proof.
  intros Hid Hc Ht Hf Hl Hemb Hup.
  rewrite (ingest_item_absent w total n item s key Hid) by eauto.
  unfold record_of in *. run_monad.
  rewrite Hid, Hc, Ht. simpl. rewrite Hemb. simpl. rewrite Hup. reflexivity.
Qed.

(** C5, as the code has it.  A storage write fault ends the run at the item it
    hits: the fault is raised to the caller of the run, the items before it
    keep their effect, the item itself is not stored and no progress line is
    printed for it, and no later item is probed, embedded or written (the
    result does not depend on the items after it). *)
Theorem write_fault_ends_the_run (w : World) (total n : nat)
    (pre post : list Item) (item : Item) (s s1 : Store) (t1 : Trace)
    (key txt descr : string) (e : PyExc) :
  ingest_loop w total n pre s = (Returned tt, s1, t1) ->
  item !! "id" = Some key ->
  item !! "content" = Some txt ->
  item !! "title" = Some descr ->
  get_fault w (S (n + length pre)) key = None ->
  store_lookup s1 key = None ->
  embed_fault w (S (n + length pre)) txt = None ->
  upsert_fault w (S (n + length pre)) (record_of w key txt descr) = Some e ->
  ingest_loop w total n (pre ++ item :: post) s
  = (Raised e, s1,
     t1 ++ [EvGet key; EvSaveInformation key txt descr; EvEmbed txt;
            EvUpsert (record_of w key txt descr)]).
Proof.
  intros Hpre Hid Hc Ht Hf Hl Hemb Hup.
  rewrite ingest_loop_app, Hpre, ingest_loop_cons.
  now rewrite (ingest_item_write_fault w total _ item s1 key txt descr e).
Qed.

Lemma write_fault_ends_the_run_witness :
  ingest_loop (second_write_fails three_items) 3 0 ([item_sql] ++ item_app :: [item_db]) []
  = (Raised (ServiceError "write refused"), [record_sql],
     [EvGet "1";
      EvSaveInformation "1" "Azure SQL Managed Instance is a managed SQL Server." "T";
      EvEmbed "Azure SQL Managed Instance is a managed SQL Server.";
      EvUpsert record_sql; EvPrint (PSaved 1 3)]
     ++ [EvGet "2";
         EvSaveInformation "2" "Azure App Service hosts web sites." "Azure App Service";
         EvEmbed "Azure App Service hosts web sites.";
         EvUpsert record_app]).
Proof.
  apply (write_fault_ends_the_run (second_write_fails three_items) 3 0
           [item_sql] [item_db] item_app [] [record_sql] _
           "2" "Azure App Service hosts web sites." "Azure App Service"
           (ServiceError "write refused"));
    vm_compute; reflexivity.
Defined.

(** C5, as the spec states it, fails: with three new items and a write fault at
    the second, the run raises; the third item, whose own write would have
    succeeded, is never probed and is not stored, and nothing is printed about
    the second. *)
Lemma write_fault_stops_remaining_items :
  ingest (second_write_fails three_items) three_items []
  = (Raised (ServiceError "write refused"), [record_sql],
     [EvGet "1";
      EvSaveInformation "1" "Azure SQL Managed Instance is a managed SQL Server." "T";
      EvEmbed "Azure SQL Managed Instance is a managed SQL Server.";
      EvUpsert record_sql; EvPrint (PSaved 1 3);
      EvGet "2";
      EvSaveInformation "2" "Azure App Service hosts web sites." "Azure App Service";
      EvEmbed "Azure App Service hosts web sites.";
      EvUpsert record_app]) /\
  List.existsb (touches "3")
    (trace (ingest (second_write_fails three_items) three_items [])) = false /\
  store_lookup (final (ingest (second_write_fails three_items) three_items [])) "3"
  = None /\
  outcome (ingest_item (second_write_fails three_items) 3 3 item_db [record_sql])
  = Returned tt.
Proof. vm_compute. repeat split; reflexivity. Qed.

(** ** The data file *)

(** C10.  When the data file cannot be opened, or its contents do not parse,
    the call raises that error with the store untouched and nothing but the
    attempt to open the file in its trace: no lookup, no embedding call, no
    write. *)
Theorem unreadable_file_changes_nothing (w : World) (data_file_path : string)
    (s : Store) (e : PyExc) :
  open_file w data_file_path = inl e \/
  (exists contents, open_file w data_file_path = inr contents /\
                    json_load w contents = inl e) ->
  upsert_data_to_memory_store w data_file_path s
  = (Raised e, s, [EvOpen data_file_path]).
Proof.
  intros [Hopen|(contents & Hopen & Hparse)];
    unfold upsert_data_to_memory_store, load_data, bind, emit, raise;
    rewrite Hopen; [|rewrite Hparse]; reflexivity.
Qed.

Lemma unreadable_file_changes_nothing_witness :
  upsert_data_to_memory_store garbled_file_world "./src/data/text-sample.json" [record_sql]
  = (Raised JSONDecodeError, [record_sql], [EvOpen "./src/data/text-sample.json"]).
Proof.
  apply (unreadable_file_changes_nothing garbled_file_world
           "./src/data/text-sample.json" [record_sql] JSONDecodeError).
  right. exists "{ not json". split; reflexivity.
Defined.

(** ** Records and their vectors *)

Lemma store_lookup_upsert_inv (s : Store) (r x : MemoryRecord) (key : string) :
  store_lookup (store_upsert s x) key = Some r ->
  (r = x /\ mr_id x = key) \/ store_lookup s key = Some r.
Proof.
  destruct (String.eqb (mr_id x) key) eqn:E.
  - apply String.eqb_eq in E. subst key. rewrite store_lookup_upsert_eq.
    intros [= <-]. now left.
  - apply String.eqb_neq in E. rewrite store_lookup_upsert_ne by exact E. now right.
Qed.

Lemma ingest_item_consistent (w : World) (total n : nat) (item : Item) (s : Store) :
  (consistent w s -> consistent w (final (ingest_item w total n item s))) /\
  Forall (whole_record_write w) (trace (ingest_item w total n item s)) /\
  (forall key r,
     store_lookup (final (ingest_item w total n item s)) key = Some r ->
     store_lookup s key = Some r \/
     exists txt descr, r = record_of w key txt descr).
Proof.
  destruct (ingest_item_cases w total n item s) as [| | |k x Hid Hp Hx]; simpl;
    try (repeat split; auto; repeat constructor; fail).
  destruct Hx as [| | |k' txt descr Hid' Hc]; simpl;
    try (repeat split; auto; repeat constructor; fail).
  split; [|split].
  - intros Hs. now apply consistent_upsert.
  - repeat constructor.
  - intros key r Hl.
    apply store_lookup_upsert_inv in Hl as [[-> <-]|Hl]; [|now left].
    right. now exists txt, descr.
Qed.

Lemma ingest_loop_consistent (w : World) (total : nat) (data : list Item) :
  forall (n : nat) (s : Store),
    (consistent w s -> consistent w (final (ingest_loop w total n data s))) /\
    Forall (whole_record_write w) (trace (ingest_loop w total n data s)) /\
    (forall key r,
       store_lookup (final (ingest_loop w total n data s)) key = Some r ->
       store_lookup s key = Some r \/
       exists txt descr, r = record_of w key txt descr).
Proof.
  induction data as [|item rest IH]; intros n s.
  - simpl. repeat split; auto.
  - rewrite ingest_loop_cons.
    destruct (ingest_item_consistent w total (S n) item s) as (H1 & H2 & H3).
    destruct (ingest_item w total (S n) item s) as [[[[]|e] s1] t1];
      simpl in *; [|repeat split; auto].
    destruct (IH (S n) s1) as (H4 & H5 & H6).
    destruct (ingest_loop w total (S n) rest s1) as [[r2 s2] t2]; simpl in *.
    split; [|split].
    + auto.
    + apply Forall_app. now split.
    + intros key r Hl. destruct (H6 key r Hl) as [Hl1|Hnew]; auto.
Qed.

(** C7.  A store whose records carry the embedding of their own text keeps
    that property through ingestion, however the run ends; every write of the
    run is a whole record with the vector of its text; and every record found
    after the run is either the record found under its id before, untouched,
    or a record [save_information] built whole from an item.  In particular no
    stored record is without a vector. *)
Theorem stored_records_stay_consistent (w : World) (data : list Item) (s : Store) :
  consistent w s ->
  consistent w (final (ingest w data s)) /\
  Forall (whole_record_write w) (trace (ingest w data s)) /\
  (forall key r,
     store_lookup (final (ingest w data s)) key = Some r ->
     mr_embedding r = Some (embedding w (mr_text r)) /\
     (store_lookup s key = Some r \/
      exists txt descr, r = record_of w key txt descr)).
Proof.
  intros Hs. unfold ingest.
  destruct (ingest_loop_consistent w (length data) data 0 s) as (H1 & H2 & H3).
  repeat split; auto.
  destruct (H3 key r H) as [Hold|(txt & descr & ->)]; [|reflexivity].
  unfold consistent in Hs. rewrite Forall_forall in Hs.
  apply Hs, (store_lookup_elem s key r Hold).
Qed.

Lemma stored_records_stay_consistent_witness :
  consistent (quiet_world []) [record_sql] /\
  consistent (quiet_world []) (final (ingest (quiet_world []) three_items [record_sql])).
Proof.
  assert (consistent (quiet_world []) [record_sql]) as H
    by (repeat constructor).
  exact (conj H (proj1 (stored_records_stay_consistent (quiet_world []) three_items
                          [record_sql] H))).
Defined.

(** ** The conversation loop *)

Lemma print_fragments_run {St} (fragments : list string) (s : St) :
  print_fragments fragments s = (Returned tt, s, fragment_events fragments).
Proof.
  induction fragments as [|f rest IH]; [reflexivity|].
  simpl. unfold bind, print, emit. now rewrite IH.
Qed.

Lemma consume_stream_run {St} (stream : list string * option PyExc) (s : St) :
  consume_stream stream s
  = (match snd stream with Some e => Raised e | None => Returned tt end,
     s, fragment_events (fst stream)).
Proof.
  unfold consume_stream, bind. rewrite print_fragments_run.
  destruct (snd stream); simpl; now rewrite app_nil_r.
Qed.

(** A turn whose search finds something and whose stream ends normally. *)
Lemma turn_grounded (k : Kernel) (line : string) (r : MemoryQueryResult)
    (others : list MemoryQueryResult) :
  memory_search k line = inr (r :: others) ->
  turn k line tt
  = (match snd (invoke_stream k chat_function
                  (mkKernelArguments line (additional_metadata r))) with
     | Some e => Raised e
     | None => Returned tt
     end, tt,
     [EvSearch line;
      EvInvokeStream chat_function (mkKernelArguments line (additional_metadata r));
      EvPrint (PQuestion line)]
     ++ fragment_events (fst (invoke_stream k chat_function
                                (mkKernelArguments line (additional_metadata r))))
     ++ match snd (invoke_stream k chat_function
                     (mkKernelArguments line (additional_metadata r))) with
        | Some e => []
        | None => [EvPrint PNewlines; EvSleep 5]
        end).
Proof.
  intros Hs. unfold turn, search_memory, index0, bind, emit, print, ret.
  rewrite Hs. simpl. rewrite consume_stream_run.
  destruct (snd (invoke_stream k chat_function _)); simpl.
  - now rewrite app_nil_r.
  - reflexivity.
Qed.

(** A turn whose search finds nothing. *)
Lemma turn_without_result (k : Kernel) (line : string) :
  memory_search k line = inr [] ->
  turn k line tt = (Raised IndexError, tt, [EvSearch line]).
Proof.
  intros Hs. unfold turn, search_memory, index0, bind, emit, raise, ret.
  rewrite Hs. reflexivity.
Qed.

(** A turn whose search faults. *)
Lemma turn_search_fault (k : Kernel) (line : string) (e : PyExc) :
  memory_search k line = inl e ->
  turn k line tt = (Raised e, tt, [EvSearch line]).
Proof.
  intros Hs. unfold turn, search_memory, bind, emit, raise.
  rewrite Hs. reflexivity.
Qed.

Lemma conversation_loop_cons (k : Kernel) (current line : string)
    (rest : list string) :
  String.eqb current "exit" = false ->
  conversation_loop k current (line :: rest)
  = match turn k line tt with
    | (Returned _, _, t) =>
        (outcome (conversation_loop k line rest),
         final (conversation_loop k line rest),
         EvInput line :: t ++ trace (conversation_loop k line rest))
    | (Raised e, _, t) => (Raised e, rest, EvInput line :: t)
    end.
Proof.
  intros Hc. simpl. rewrite Hc. simpl.
  destruct (turn k line tt) as [[[[]|e] u] t]; [|reflexivity].
  now destruct (conversation_loop k line rest) as [[r remaining] t'].
Qed.

Lemma conversation_loop_exit (k : Kernel) (stdin : list string) :
  conversation_loop k "exit" stdin = (Returned tt, stdin, []).
Proof. now destruct stdin. Qed.

(** C2, as the code has it.  The sentinel is compared at the head of the loop,
    after the turn of the line just read.  So a line "exit" gets its turn like
    any other line: retrieval for "exit", the completion grounded on the first
    result, the answer printed; then the loop ends normally and reads nothing
    more.  The comparison is exact: after the turn of any other line the loop
    asks for the next line (here there is none, and [input] raises). *)
Theorem sentinel_is_checked_after_the_turn (k : Kernel) (current : string)
    (rest : list string) (r : MemoryQueryResult) (others : list MemoryQueryResult) :
  String.eqb current "exit" = false ->
  memory_search k "exit" = inr (r :: others) ->
  snd (invoke_stream k chat_function
         (mkKernelArguments "exit" (additional_metadata r))) = None ->
  conversation_loop k current ("exit" :: rest)
  = (Returned tt, rest,
     [EvInput "exit"; EvSearch "exit";
      EvInvokeStream chat_function (mkKernelArguments "exit" (additional_metadata r));
      EvPrint (PQuestion "exit")]
     ++ fragment_events (fst (invoke_stream k chat_function
                                (mkKernelArguments "exit" (additional_metadata r))))
     ++ [EvPrint PNewlines; EvSleep 5]) /\
  (forall (line : string) (t : Trace),
     String.eqb line "exit" = false ->
     turn k line tt = (Returned tt, tt, t) ->
     conversation_loop k current [line] = (Raised EOFError, [], EvInput line :: t)).
Proof.
  intros Hc Hs Hstream. split.
  - rewrite (conversation_loop_cons k current "exit" rest Hc).
    rewrite (turn_grounded k "exit" r others Hs), Hstream.
    rewrite conversation_loop_exit. simpl. now rewrite app_nil_r.
  - intros line t Hline Hturn.
    rewrite (conversation_loop_cons k current line [] Hc), Hturn.
    simpl. rewrite Hline. simpl. now rewrite app_nil_r.
Qed.

Lemma sentinel_is_checked_after_the_turn_witness :
  conversation_loop (kernel_of [record_sql]) "" ("exit" :: ["never read"])
  = (Returned tt, ["never read"],
     [EvInput "exit"; EvSearch "exit";
      EvInvokeStream chat_function (mkKernelArguments "exit" (Some "T"));
      EvPrint (PQuestion "exit")]
     ++ fragment_events ["Hello"; "!"]
     ++ [EvPrint PNewlines; EvSleep 5]).
Proof.
  apply (proj1 (sentinel_is_checked_after_the_turn (kernel_of [record_sql]) ""
                  ["never read"]
                  (mkMemoryQueryResult "1"
                     "Azure SQL Managed Instance is a managed SQL Server." "T"
                     (Some "T") (inject_Z 205)) []
                  eq_refl eq_refl eq_refl)).
Defined.

(** C2, as the spec states it, fails: on the input "exit" the loop searches for
    "exit" and invokes the streamed completion for it before it ends. *)
Lemma sentinel_turn_is_retrieved_and_completed :
  outcome (conversation (kernel_of [record_sql]) ["exit"]) = Returned tt /\
  search_calls (trace (conversation (kernel_of [record_sql]) ["exit"])) = ["exit"] /\
  completion_calls (trace (conversation (kernel_of [record_sql]) ["exit"]))
  = [(true, chat_function, mkKernelArguments "exit" (Some "T"))].
Proof. vm_compute. repeat split; reflexivity. Qed.

(** Scenario C of the spec: three lines, three turns, the third for "exit". *)
Example scenario_C :
  search_calls (trace (conversation (kernel_of [record_sql])
                         ["Hey"; "What is the easiest database to use on Azure?"; "exit"]))
  = ["Hey"; "What is the easiest database to use on Azure?"; "exit"] /\
  length (completion_calls (trace (conversation (kernel_of [record_sql])
                         ["Hey"; "What is the easiest database to use on Azure?"; "exit"])))
  = 3.
Proof. vm_compute. split; reflexivity. Qed.

(** ** Retrieval that finds nothing *)

Lemma empty_result_raises (k : Kernel) (current line : string) (rest : list string) :
  String.eqb current "exit" = false ->
  memory_search k line = inr [] ->
  conversation_loop k current (line :: rest)
  = (Raised IndexError, rest, [EvInput line; EvSearch line]).
Proof.
  intros Hc Hs.
  now rewrite (conversation_loop_cons k current line rest Hc),
    (turn_without_result k line Hs).
Qed.

(** C3 fails on the code.  Over an empty collection the search returns no
    result, [result[0]] raises [IndexError], and the session ends there: no
    completion is invoked, nothing is printed for the turn, and the next line
    is never read. *)
Lemma empty_collection_ends_the_session :
  memory_search (kernel_of []) "Hey" = inr [] /\
  conversation (kernel_of []) ["Hey"; "exit"]
  = (Raised IndexError, ["exit"], [EvInput "Hey"; EvSearch "Hey"]) /\
  grounded_response (kernel_of []) first_query tt
  = (Raised IndexError, tt, [EvSearch first_query]).
Proof. vm_compute. repeat split; reflexivity. Qed.

(** ** Grounding *)

Lemma completion_calls_app (t1 t2 : Trace) :
  completion_calls (t1 ++ t2) = completion_calls t1 ++ completion_calls t2.
Proof. apply omap_app. Qed.

Lemma completion_calls_fragments (fragments : list string) :
  completion_calls (fragment_events fragments) = [].
Proof. induction fragments as [|f rest IH]; [reflexivity|exact IH]. Qed.

Lemma turn_completion_calls (k : Kernel) (line : string) :
  completion_calls (trace (turn k line tt)) = [] \/
  exists r others,
    memory_search k line = inr (r :: others) /\
    completion_calls (trace (turn k line tt))
    = [(true, chat_function, mkKernelArguments line (additional_metadata r))].
Proof.
  destruct (memory_search k line) as [e|[|r others]] eqn:Hs.
  - left. now rewrite (turn_search_fault k line e Hs).
  - left. now rewrite (turn_without_result k line Hs).
  - right. exists r, others. split; [reflexivity|].
    rewrite (turn_grounded k line r others Hs). simpl.
    rewrite completion_calls_app, completion_calls_fragments. simpl.
    now destruct (snd (invoke_stream k chat_function _)).
Qed.

Lemma conversation_calls_grounded (k : Kernel) (stdin : list string) :
  forall current : string,
    Forall (grounded_on_top_result k)
      (completion_calls (trace (conversation_loop k current stdin))).
Proof.
  induction stdin as [|line rest IH]; intros current.
  - simpl. destruct (String.eqb current "exit"); constructor.
  - destruct (String.eqb current "exit") eqn:Hc.
    + simpl. rewrite Hc. constructor.
    + rewrite (conversation_loop_cons k current line rest Hc).
      pose proof (turn_completion_calls k line) as Hturn.
      destruct (turn k line tt) as [[[[]|e] u] t]; simpl in *.
      * rewrite completion_calls_app. apply Forall_app. split; [|apply IH].
        destruct Hturn as [->|(r & others & Hs & ->)]; repeat constructor.
        simpl. eauto.
      * destruct Hturn as [->|(r & others & Hs & ->)]; repeat constructor.
        simpl. eauto.
Qed.

(** C6.  When the search for a query returns a first result, the single-shot
    cell and a turn of the loop make exactly one completion call each, on the
    same prompt function and with the same arguments: the query itself and the
    first result's metadata; they differ in the delivery mode only.  And every
    completion call of a whole conversation binds the first result of the
    search for the very query term it carries. *)
Theorem grounding_binds_the_top_result (k : Kernel) (query : string)
    (r : MemoryQueryResult) (others : list MemoryQueryResult) (stdin : list string) :
  memory_search k query = inr (r :: others) ->
  completion_calls (trace (grounded_response k query tt))
  = [(false, chat_function, mkKernelArguments query (additional_metadata r))] /\
  completion_calls (trace (turn k query tt))
  = [(true, chat_function, mkKernelArguments query (additional_metadata r))] /\
  Forall (grounded_on_top_result k) (completion_calls (trace (conversation k stdin))).
Proof.
  intros Hs. split; [|split].
  - unfold grounded_response, search_memory, index0, bind, emit, print, ret, raise.
    rewrite Hs. simpl.
    now destruct (invoke k chat_function _).
  - rewrite (turn_grounded k query r others Hs). simpl.
    rewrite completion_calls_app, completion_calls_fragments. simpl.
    now destruct (snd (invoke_stream k chat_function _)).
  - apply conversation_calls_grounded.
Qed.

Lemma grounding_binds_the_top_result_witness :
  completion_calls (trace (grounded_response (kernel_of [record_sql; record_app])
                             first_query tt))
  = [(false, chat_function, mkKernelArguments first_query (Some "T"))] /\
  completion_calls (trace (turn (kernel_of [record_sql; record_app]) first_query tt))
  = [(true, chat_function, mkKernelArguments first_query (Some "T"))] /\
  Forall (grounded_on_top_result (kernel_of [record_sql; record_app]))
    (completion_calls (trace (conversation (kernel_of [record_sql; record_app])
                                ["Hey"; "exit"]))).
Proof.
  apply (grounding_binds_the_top_result (kernel_of [record_sql; record_app])
           first_query
           (mkMemoryQueryResult "1"
              "Azure SQL Managed Instance is a managed SQL Server." "T"
              (Some "T") (inject_Z 2296)) [] ["Hey"; "exit"]).
  vm_compute. reflexivity.
Defined.

(** ** Ranking *)

Section Ranking.

Variable metric : Vec -> Vec -> Q.
Variable metadata_of : MemoryRecord -> option string.

Lemma insert_ranked_Forall (P : MemoryQueryResult -> Prop) (x : MemoryQueryResult)
    (l : list MemoryQueryResult) :
  P x -> Forall P l -> Forall P (insert_ranked x l).
Proof.
  intros Hx Hl. induction Hl as [|y rest Hy Hrest IH]; simpl.
  - now repeat constructor.
  - destruct (Qle_bool (relevance y) (relevance x)); now repeat constructor.
Qed.

Lemma insert_ranked_sorted (x : MemoryQueryResult) (l : list MemoryQueryResult) :
  StronglySorted ranks_before l -> StronglySorted ranks_before (insert_ranked x l).
Proof.
  intros Hl. induction Hl as [|y rest Hrest IH Hy]; simpl.
  - repeat constructor.
  - destruct (Qle_bool (relevance y) (relevance x)) eqn:E.
    + apply Qle_bool_iff in E.
      constructor; [now constructor|].
      constructor; [exact E|].
      eapply Forall_impl; [exact Hy|].
      intros b Hb. unfold ranks_before in *. now apply Qle_trans with (relevance y).
    + constructor; [exact IH|].
      apply insert_ranked_Forall; [|exact Hy].
      unfold ranks_before. apply Qlt_le_weak, Qnot_le_lt.
      intros Hle. apply Qle_bool_iff in Hle. congruence.
Qed.

Lemma rank_sorted (l : list MemoryQueryResult) : StronglySorted ranks_before (rank l).
Proof.
  induction l as [|x rest IH]; simpl; [constructor|now apply insert_ranked_sorted].
Qed.

Lemma insert_ranked_perm (x : MemoryQueryResult) (l : list MemoryQueryResult) :
  insert_ranked x l ≡ₚ x :: l.
Proof.
  induction l as [|y rest IH]; simpl; [reflexivity|].
  destruct (Qle_bool (relevance y) (relevance x)); [reflexivity|].
  rewrite IH. apply Permutation_swap.
Qed.

Lemma rank_perm (l : list MemoryQueryResult) : rank l ≡ₚ l.
Proof.
  induction l as [|x rest IH]; simpl; [reflexivity|].
  now rewrite insert_ranked_perm, IH.
Qed.

(** Insertion keeps the order among results of one relevance: the new result
    only passes results that are strictly more relevant. *)
Lemma insert_ranked_stable (v : Q) (x : MemoryQueryResult) (l : list MemoryQueryResult) :
  List.filter (has_relevance v) (insert_ranked x l)
  = List.filter (has_relevance v) (x :: l).
Proof.
  induction l as [|y rest IH]; [reflexivity|].
  simpl insert_ranked.
  destruct (Qle_bool (relevance y) (relevance x)) eqn:E; [reflexivity|].
  change (List.filter (has_relevance v) (y :: insert_ranked x rest))
    with (if has_relevance v y
          then y :: List.filter (has_relevance v) (insert_ranked x rest)
          else List.filter (has_relevance v) (insert_ranked x rest)).
  rewrite IH. simpl.
  destruct (has_relevance v x) eqn:Hx, (has_relevance v y) eqn:Hy; try reflexivity.
  exfalso. unfold has_relevance in *.
  apply Qeq_bool_iff in Hx, Hy.
  assert (Qle_bool (relevance y) (relevance x) = true) as Hle.
  { apply Qle_bool_iff. rewrite Hx, Hy. apply Qle_refl. }
  congruence.
Qed.

Lemma rank_stable (v : Q) (l : list MemoryQueryResult) :
  List.filter (has_relevance v) (rank l) = List.filter (has_relevance v) l.
Proof.
  induction l as [|x rest IH]; [reflexivity|].
  simpl rank. rewrite insert_ranked_stable. simpl. now rewrite IH.
Qed.

Lemma StronglySorted_app_inv (l1 l2 : list MemoryQueryResult) :
  StronglySorted ranks_before (l1 ++ l2) ->
  StronglySorted ranks_before l1 /\
  Forall (fun a => Forall (ranks_before a) l2) l1.
Proof.
  induction l1 as [|a l1 IH]; simpl; intros Hs.
  - split; constructor.
  - inversion Hs as [|? ? Hrest Ha]; subst.
    destruct (IH Hrest) as [H1 H2].
    apply Forall_app in Ha as [Ha1 Ha2].
    split; constructor; auto.
Qed.

(** C8.  The results of a search are in non-increasing order of relevance under
    the collection's metric; among results of one relevance the order is the
    insertion order of their documents (the results of any one relevance are a
    prefix of the candidates of that relevance, in store order); and they are
    the top of the collection: together with some remainder they are all the
    candidates, and no result is less relevant than a candidate left out. *)
Theorem search_is_ranked (s : Store) (query_vector : Vec) (top_k : nat) :
  StronglySorted ranks_before (search metric metadata_of s query_vector top_k) /\
  (forall v : Q,
     List.filter (has_relevance v) (search metric metadata_of s query_vector top_k)
     `prefix_of`
     List.filter (has_relevance v) (omap (score metric metadata_of query_vector) s)) /\
  length (search metric metadata_of s query_vector top_k)
  = min top_k (length (omap (score metric metadata_of query_vector) s)) /\
  exists left_out : list MemoryQueryResult,
    search metric metadata_of s query_vector top_k ++ left_out
    ≡ₚ omap (score metric metadata_of query_vector) s /\
    Forall (fun a => Forall (ranks_before a) left_out)
      (search metric metadata_of s query_vector top_k).
Proof.
  unfold search.
  set (candidates := omap (score metric metadata_of query_vector) s).
  pose proof (rank_sorted candidates) as Hsorted.
  rewrite <- (take_drop top_k (rank candidates)) in Hsorted.
  apply StronglySorted_app_inv in Hsorted as [Hs1 Hs2].
  split; [exact Hs1|]. split; [|split].
  - intros v. rewrite <- (rank_stable v candidates).
    rewrite <- (take_drop top_k (rank candidates)) at 2.
    rewrite List.filter_app. now apply prefix_app_r.
  - rewrite length_take. rewrite (Permutation_length (rank_perm candidates)).
    reflexivity.
  - exists (drop top_k (rank candidates)). split; [|exact Hs2].
    rewrite take_drop. apply rank_perm.
Qed.

End Ranking.

(** Scenario B of the spec, by inner product: the record of scenario A among
    unrelated ones. *)
Example scenario_B :
  retrieve inner_product (fun r => Some (mr_description r)) (quiet_world [])
    [record_app; record_sql;
     record_of (quiet_world []) "3" "Azure SQL Database is a relational database."
       "Azure SQL Database"]
    first_query 1
  = [mkMemoryQueryResult "1" "Azure SQL Managed Instance is a managed SQL Server."
       "T" (Some "T") (inject_Z 2296)].
Proof. vm_compute. reflexivity. Qed.

(** Two documents of the same text tie; the one inserted first comes first. *)
Example ties_keep_insertion_order :
  map result_id
    (search inner_product (fun _ => None)
       [record_of (quiet_world []) "b" "same" "second in the file";
        record_of (quiet_world []) "z" "longer text" "most relevant";
        record_of (quiet_world []) "a" "same" "inserted last"]
       [1%Q; 0%Q] 3)
  = ["z"; "b"; "a"].
Proof. vm_compute. reflexivity. Qed.

(** * Further properties of the two loops *)

(** ** How a run of the ingestion loop ends *)

(** The loop over [pre ++ item :: post] when [pre] is got through and the
    iteration of [item] raises. *)
Lemma ingest_loop_raises_at (w : World) (total n : nat) (pre post : list Item)
    (item : Item) (s s1 s2 : Store) (t1 t2 : Trace) (e : PyExc) :
  ingest_loop w total n pre s = (Returned tt, s1, t1) ->
  ingest_item w total (S (n + length pre)) item s1 = (Raised e, s2, t2) ->
  ingest_loop w total n (pre ++ item :: post) s = (Raised e, s2, t1 ++ t2).
Proof.
  intros Hpre Hitem. now rewrite ingest_loop_app, Hpre, ingest_loop_cons, Hitem.
Qed.

(** A new, well-formed item in a world that lets it through. *)
Lemma ingest_item_new (w : World) (total n : nat) (item : Item) (s : Store)
    (key txt descr : string) :
  item !! "id" = Some key ->
  item !! "content" = Some txt ->
  item !! "title" = Some descr ->
  get_fault w n key = None ->
  store_lookup s key = None ->
  embed_fault w n txt = None ->
  upsert_fault w n (record_of w key txt descr) = None ->
  ingest_item w total n item s
  = (Returned tt, store_upsert s (record_of w key txt descr),
     [EvGet key; EvSaveInformation key txt descr; EvEmbed txt;
      EvUpsert (record_of w key txt descr); EvPrint (PSaved n total)]).
Proof.
  intros Hid Hc Ht Hf Hl Hemb Hup.
  rewrite (ingest_item_absent w total n item s key Hid) by eauto.
  unfold bind, emit.
  now rewrite (save_new_item_ok w total n item s key txt descr).
Qed.

(** X4.  An item without an "id" stops the run with [KeyError "id"], and
    without a lookup: the handler around the probe swallows the first
    [KeyError], the probe counts as a miss, and the same subscript raises
    again, uncaught, among the arguments of [save_information]. *)
Theorem item_without_id_ends_the_run (w : World) (total n : nat)
    (pre post : list Item) (item : Item) (s s1 : Store) (t1 : Trace) :
  ingest_loop w total n pre s = (Returned tt, s1, t1) ->
  item !! "id" = None ->
  ingest_loop w total n (pre ++ item :: post) s
  = (Raised (KeyError "id"), s1, t1).
Proof.
  intros Hpre Hid.
  rewrite (ingest_loop_raises_at w total n pre post item s s1 s1 t1 [] (KeyError "id") Hpre).
  - now rewrite app_nil_r.
  - unfold ingest_item, bind.
    rewrite (already_created_no_id _ _ _ _ Hid). simpl.
    unfold save_new_item, getitem, bind, raise. now rewrite Hid.
Qed.

Lemma item_without_id_ends_the_run_witness :
  ingest_loop (quiet_world []) 3 0 ([item_sql] ++ item_without_an_id :: [item_app]) []
  = (Raised (KeyError "id"), [record_sql],
     [EvGet "1";
      EvSaveInformation "1" "Azure SQL Managed Instance is a managed SQL Server." "T";
      EvEmbed "Azure SQL Managed Instance is a managed SQL Server.";
      EvUpsert record_sql; EvPrint (PSaved 1 3)]).
Proof.
  apply (item_without_id_ends_the_run (quiet_world []) 3 0 [item_sql] [item_app]
           item_without_an_id [] [record_sql]);
    vm_compute; reflexivity.
Defined.

(** X5.  A new item without "content", or with "content" and without "title",
    stops the run with the [KeyError] of the missing field after its lookup
    and before any call of [save_information]: nothing is embedded or written
    for it. *)
Theorem item_without_field_ends_the_run (w : World) (total n : nat)
    (pre post : list Item) (item : Item) (s s1 : Store) (t1 : Trace) (key : string) :
  ingest_loop w total n pre s = (Returned tt, s1, t1) ->
  item !! "id" = Some key ->
  get_fault w (S (n + length pre)) key = None ->
  store_lookup s1 key = None ->
  (item !! "content" = None ->
   ingest_loop w total n (pre ++ item :: post) s
   = (Raised (KeyError "content"), s1, t1 ++ [EvGet key])) /\
  (is_Some (item !! "content") -> item !! "title" = None ->
   ingest_loop w total n (pre ++ item :: post) s
   = (Raised (KeyError "title"), s1, t1 ++ [EvGet key])).
Proof.
  intros Hpre Hid Hf Hl. split.
  - intros Hc.
    apply (ingest_loop_raises_at w total n pre post item s s1 s1 t1 _ _ Hpre).
    rewrite (ingest_item_absent w total _ item s1 key Hid) by eauto.
    unfold save_new_item, getitem, bind, emit, raise, ret. now rewrite Hid, Hc.
  - intros [txt Hc] Ht.
    apply (ingest_loop_raises_at w total n pre post item s s1 s1 t1 _ _ Hpre).
    rewrite (ingest_item_absent w total _ item s1 key Hid) by eauto.
    unfold save_new_item, getitem, bind, emit, raise, ret. now rewrite Hid, Hc, Ht.
Qed.

Lemma item_without_field_ends_the_run_witness :
  ingest_loop (quiet_world []) 2 0 ([item_sql] ++ item_without_content :: []) []
  = (Raised (KeyError "content"), [record_sql],
     [EvGet "1";
      EvSaveInformation "1" "Azure SQL Managed Instance is a managed SQL Server." "T";
      EvEmbed "Azure SQL Managed Instance is a managed SQL Server.";
      EvUpsert record_sql; EvPrint (PSaved 1 2)] ++ [EvGet "9"]).
Proof.
  apply (proj1 (item_without_field_ends_the_run (quiet_world []) 2 0 [item_sql] []
                  item_without_content [] [record_sql] _ "9"
                  eq_refl eq_refl eq_refl eq_refl)).
  reflexivity.
Defined.

(** X6.  A fault of the embedding call stops the run: it is raised to the
    caller after the call, no write is attempted for the item, the store is as
    the items before left it, and no later item is looked at. *)
Theorem embedding_fault_ends_the_run (w : World) (total n : nat)
    (pre post : list Item) (item : Item) (s s1 : Store) (t1 : Trace)
    (key txt descr : string) (e : PyExc) :
  ingest_loop w total n pre s = (Returned tt, s1, t1) ->
  item !! "id" = Some key ->
  item !! "content" = Some txt ->
  item !! "title" = Some descr ->
  get_fault w (S (n + length pre)) key = None ->
  store_lookup s1 key = None ->
  embed_fault w (S (n + length pre)) txt = Some e ->
  ingest_loop w total n (pre ++ item :: post) s
  = (Raised e, s1,
     t1 ++ [EvGet key; EvSaveInformation key txt descr; EvEmbed txt]).
Proof.
  intros Hpre Hid Hc Ht Hf Hl Hemb.
  apply (ingest_loop_raises_at w total n pre post item s s1 s1 t1 _ _ Hpre).
  rewrite (ingest_item_absent w total _ item s1 key Hid) by eauto.
  run_monad. rewrite Hid, Hc, Ht. simpl. now rewrite Hemb.
Qed.

Lemma embedding_fault_ends_the_run_witness :
  ingest_loop second_embedding_fails 3 0 ([item_sql] ++ item_app :: [item_db]) []
  = (Raised (ServiceError "embedding refused"), [record_sql],
     [EvGet "1";
      EvSaveInformation "1" "Azure SQL Managed Instance is a managed SQL Server." "T";
      EvEmbed "Azure SQL Managed Instance is a managed SQL Server.";
      EvUpsert record_sql; EvPrint (PSaved 1 3)]
     ++ [EvGet "2";
         EvSaveInformation "2" "Azure App Service hosts web sites." "Azure App Service";
         EvEmbed "Azure App Service hosts web sites."]).
Proof.
  apply (embedding_fault_ends_the_run second_embedding_fails 3 0 [item_sql] [item_db]
           item_app [] [record_sql] _
           "2" "Azure App Service hosts web sites." "Azure App Service"
           (ServiceError "embedding refused"));
    vm_compute; reflexivity.
Defined.

(** X7.  A lookup that ends in something [except Exception] does not catch (a
    [KeyboardInterrupt], a cancellation) stops the run: it is raised to the
    caller right after the lookup, the item is neither skipped nor saved, and
    this whether or not its id is stored. *)
Theorem interrupted_lookup_ends_the_run (w : World) (total n : nat)
    (pre post : list Item) (item : Item) (s s1 : Store) (t1 : Trace)
    (key : string) (e : PyExc) :
  ingest_loop w total n pre s = (Returned tt, s1, t1) ->
  item !! "id" = Some key ->
  get_fault w (S (n + length pre)) key = Some e ->
  is_Exception e = false ->
  ingest_loop w total n (pre ++ item :: post) s
  = (Raised e, s1, t1 ++ [EvGet key]).
Proof.
  intros Hpre Hid Hf He.
  apply (ingest_loop_raises_at w total n pre post item s s1 s1 t1 _ _ Hpre).
  unfold ingest_item, bind.
  now rewrite (already_created_fault _ _ _ _ _ _ Hid Hf), He.
Qed.

Lemma interrupted_lookup_ends_the_run_witness :
  ingest_loop second_lookup_interrupted 2 0 ([item_sql] ++ item_app :: []) []
  = (Raised KeyboardInterrupt, [record_sql],
     [EvGet "1";
      EvSaveInformation "1" "Azure SQL Managed Instance is a managed SQL Server." "T";
      EvEmbed "Azure SQL Managed Instance is a managed SQL Server.";
      EvUpsert record_sql; EvPrint (PSaved 1 2)] ++ [EvGet "2"]).
Proof.
  apply (interrupted_lookup_ends_the_run second_lookup_interrupted 2 0 [item_sql] []
           item_app [] [record_sql] _ "2" KeyboardInterrupt);
    vm_compute; reflexivity.
Defined.

(** ** What a run leaves in the store *)

Lemma final_ingest_loop_cons (w : World) (total n : nat) (item : Item)
    (rest : list Item) (s s1 : Store) (t1 : Trace) :
  ingest_item w total (S n) item s = (Returned tt, s1, t1) ->
  final (ingest_loop w total n (item :: rest) s)
  = final (ingest_loop w total (S n) rest s1).
Proof.
  intros Hitem. rewrite ingest_loop_cons, Hitem.
  now destruct (ingest_loop w total (S n) rest s1) as [[r s2] t2].
Qed.

Lemma ingest_loop_first_wins (w : World) (total : nat) (data : list Item) :
  lookups_reliable w ->
  providers_reliable w ->
  Forall well_formed data ->
  forall (n : nat) (s : Store) (key : string),
    store_lookup (final (ingest_loop w total n data s)) key
    = match store_lookup s key with
      | Some r => Some r
      | None =>
          match first_with_id key data with
          | Some item => record_of_item w item
          | None => None
          end
      end.
Proof.
  intros Hrel [Hemb Hup] Hall.
  induction Hall as [|item rest ([k Hid] & [txt Hc] & [descr Ht]) Hall IH];
    intros n s key.
  - simpl. now destruct (store_lookup s key).
  - simpl first_with_id. rewrite Hid.
    destruct (store_lookup s k) as [r0|] eqn:Hl.
    + rewrite (final_ingest_loop_cons w total n item rest s s _
                 (ingest_item_skip w total (S n) item s k r0 Hid (Hrel _ _) Hl)).
      rewrite IH.
      destruct (String.eqb k key) eqn:E; [|reflexivity].
      apply String.eqb_eq in E. subst k. now rewrite Hl.
    + rewrite (final_ingest_loop_cons w total n item rest s _ _
                 (ingest_item_new w total (S n) item s k txt descr Hid Hc Ht
                    (Hrel _ _) Hl (Hemb _ _) (Hup _ _))).
      rewrite IH.
      destruct (String.eqb k key) eqn:E.
      * apply String.eqb_eq in E. subst k.
        change key with (mr_id (record_of w key txt descr)) at 1.
        rewrite store_lookup_upsert_eq, Hl.
        unfold record_of_item. now rewrite Hid, Hc, Ht.
      * apply String.eqb_neq in E.
        now rewrite (store_lookup_upsert_ne s (record_of w k txt descr) key E).
Qed.

(** X1.  In a world without faults, what a run over well-formed items leaves
    under an id is decided by the id alone: the record that was stored under
    it before the run if there was one, and otherwise the record built from
    the first item of the input that carries the id; later items with the
    same id change nothing, and an id of neither kind is not stored. *)
Theorem first_item_of_an_id_wins (w : World) (data : list Item) (s : Store)
    (key : string) :
  lookups_reliable w ->
  providers_reliable w ->
  Forall well_formed data ->
  store_lookup (final (ingest w data s)) key
  = match store_lookup s key with
    | Some r => Some r
    | None =>
        match first_with_id key data with
        | Some item => record_of_item w item
        | None => None
        end
    end.
Proof.
  intros Hrel Hprov Hall.
  exact (ingest_loop_first_wins w (length data) data Hrel Hprov Hall 0 s key).
Qed.

Lemma first_item_of_an_id_wins_witness :
  lookups_reliable (quiet_world []) /\
  providers_reliable (quiet_world []) /\
  Forall well_formed [item_sql; item_sql_changed; item_app] /\
  store_lookup (final (ingest (quiet_world []) [item_sql; item_sql_changed; item_app] []))
    "1"
  = match store_lookup [] "1" with
    | Some r => Some r
    | None =>
        match first_with_id "1" [item_sql; item_sql_changed; item_app] with
        | Some item => record_of_item (quiet_world []) item
        | None => None
        end
    end.
Proof.
  assert (lookups_reliable (quiet_world [])) as Hrel by (intros n key; reflexivity).
  assert (providers_reliable (quiet_world [])) as Hprov by (split; intros; reflexivity).
  assert (Forall well_formed [item_sql; item_sql_changed; item_app]) as Hwf
    by (repeat constructor; vm_compute; eauto).
  exact (conj Hrel (conj Hprov (conj Hwf
    (first_item_of_an_id_wins (quiet_world []) [item_sql; item_sql_changed; item_app]
       [] "1" Hrel Hprov Hwf)))).
Defined.

Example duplicate_id_in_one_file :
  store_lookup (final (ingest (quiet_world []) [item_sql; item_sql_changed; item_app] []))
    "1"
  = Some record_sql.
Proof. vm_compute. reflexivity. Qed.

(** X3.  Ingestion never removes a document: an id that is stored before a
    call of [upsert_data_to_memory_store] is stored after it, in every world
    and however the call ends (unreadable file, fault in the middle of the
    input, normal return). *)
Theorem stored_ids_stay_stored (w : World) (data_file_path : string) (s : Store)
    (key : string) :
  stored s key ->
  stored (final (upsert_data_to_memory_store w data_file_path s)) key.
Proof.
  intros Hs. unfold upsert_data_to_memory_store, load_data, bind, emit.
  destruct (open_file w data_file_path) as [e|contents]; [exact Hs|].
  destruct (json_load w contents) as [e|data]; [exact Hs|].
  unfold ret. simpl.
  pose proof (ingest_loop_stored w (length data) data 0 s key Hs) as H.
  unfold ingest.
  now destruct (ingest_loop w (length data) 0 data s) as [[r s2] t2].
Qed.

Lemma stored_ids_stay_stored_witness :
  stored [record_sql] "1" /\
  stored (final (upsert_data_to_memory_store (second_write_fails three_items)
                   "./src/data/text-sample.json" [record_sql])) "1".
Proof.
  assert (stored [record_sql] "1") as H by (vm_compute; eauto).
  exact (conj H (stored_ids_stay_stored (second_write_fails three_items)
                   "./src/data/text-sample.json" [record_sql] "1" H)).
Defined.

Lemma store_upsert_new (s : Store) (r : MemoryRecord) :
  store_lookup s (mr_id r) = None -> store_upsert s r = s ++ [r].
Proof.
  induction s as [|r0 s IH]; simpl; [reflexivity|].
  destruct (String.eqb (mr_id r0) (mr_id r)); [discriminate|].
  intros Hl. now rewrite IH.
Qed.

Lemma store_lookup_app_None (s l : Store) (key : string) :
  store_lookup (s ++ l) key = None -> store_lookup s key = None.
Proof.
  induction s as [|r0 s IH]; simpl; [reflexivity|].
  now destruct (String.eqb (mr_id r0) key).
Qed.

Lemma ingest_item_appends (w : World) (total n : nat) (item : Item) (s : Store) :
  lookups_reliable w ->
  final (ingest_item w total n item s) = s \/
  exists r, final (ingest_item w total n item s) = s ++ [r] /\
            store_lookup s (mr_id r) = None.
Proof.
  intros Hrel.
  destruct (ingest_item_cases w total n item s) as [| | |k x Hid Hp Hx]; simpl; auto.
  destruct Hp as [(e & Hf & _)|(_ & Hmiss)]; [rewrite Hrel in Hf; discriminate|].
  destruct Hx as [| | |k' txt descr Hid' Hc]; simpl; auto.
  assert (k' = k) as -> by congruence.
  right. exists (record_of w k txt descr).
  split; [now apply store_upsert_new|exact Hmiss].
Qed.

Lemma ingest_loop_appends (w : World) (total : nat) (data : list Item) :
  lookups_reliable w ->
  forall (n : nat) (s : Store),
    exists added : list MemoryRecord,
      final (ingest_loop w total n data s) = s ++ added /\
      length added <= length data /\
      Forall (fun r => store_lookup s (mr_id r) = None) added.
Proof.
  intros Hrel. induction data as [|item rest IH]; intros n s.
  - exists []. simpl. rewrite app_nil_r. repeat split; auto.
  - rewrite ingest_loop_cons.
    pose proof (ingest_item_appends w total (S n) item s Hrel) as Hstep.
    destruct (ingest_item w total (S n) item s) as [[[[]|e] s1] t1]; simpl in *.
    + destruct (IH (S n) s1) as (added & Hfin & Hlen & Hnew).
      destruct (ingest_loop w total (S n) rest s1) as [[r2 s2] t2]; simpl in *.
      destruct Hstep as [->|(r & -> & Hr)].
      * exists added. repeat split; auto.
      * exists (r :: added). rewrite Hfin, <- app_assoc. simpl.
        repeat split; [lia|].
        constructor; [exact Hr|].
        eapply Forall_impl; [exact Hnew|].
        intros r' Hr'. simpl in Hr'. now apply store_lookup_app_None in Hr'.
    + destruct Hstep as [->|(r & -> & Hr)].
      * exists []. rewrite app_nil_r. repeat split; auto. simpl. lia.
      * exists [r]. repeat split; [simpl; lia|]. now constructor.
Qed.

(** X9.  With lookups that answer from the store, a run only appends: the
    documents that were in the collection are still there, unchanged and in
    their places, followed by at most one new document per input item, each
    under an id that was not stored before.  This holds however the run ends
    and whatever the providers do. *)
Theorem ingestion_only_appends (w : World) (data : list Item) (s : Store) :
  lookups_reliable w ->
  exists added : list MemoryRecord,
    final (ingest w data s) = s ++ added /\
    length added <= length data /\
    Forall (fun r => store_lookup s (mr_id r) = None) added.
Proof.
  intros Hrel. exact (ingest_loop_appends w (length data) data Hrel 0 s).
Qed.

Lemma ingestion_only_appends_witness :
  lookups_reliable (second_write_fails three_items) /\
  exists added : list MemoryRecord,
    final (ingest (second_write_fails three_items) three_items [record_app])
    = [record_app] ++ added /\
    length added <= length three_items /\
    Forall (fun r => store_lookup [record_app] (mr_id r) = None) added.
Proof.
  assert (lookups_reliable (second_write_fails three_items)) as Hrel
    by (intros n key; reflexivity).
  exact (conj Hrel (ingestion_only_appends (second_write_fails three_items)
                      three_items [record_app] Hrel)).
Defined.

(** ** What a run prints and what it calls *)

Lemma ingest_item_progress (w : World) (total n : nat) (item : Item) (s : Store) :
  progress_lines (trace (ingest_item w total n item s))
  = match outcome (ingest_item w total n item s) with
    | Returned _ => [(n, total)]
    | Raised _ => []
    end.
Proof.
  destruct (ingest_item_cases w total n item s) as [| | |k x Hid Hp Hx];
    try reflexivity.
  now destruct Hx.
Qed.

Lemma ingest_loop_progress (w : World) (total : nat) (data : list Item) :
  forall (n : nat) (s : Store),
    exists m : nat,
      progress_lines (trace (ingest_loop w total n data s))
      = map (fun i => (i, total)) (seq (S n) m) /\
      (outcome (ingest_loop w total n data s) = Returned tt -> m = length data) /\
      (forall e, outcome (ingest_loop w total n data s) = Raised e -> m < length data).
Proof.
  induction data as [|item rest IH]; intros n s.
  - exists 0. simpl. repeat split; auto. discriminate.
  - rewrite ingest_loop_cons.
    pose proof (ingest_item_progress w total (S n) item s) as Hstep.
    destruct (ingest_item w total (S n) item s) as [[[[]|e] s1] t1]; simpl in *.
    + destruct (IH (S n) s1) as (m & Hm & Hret & Hraise).
      destruct (ingest_loop w total (S n) rest s1) as [[r2 s2] t2]; simpl in *.
      exists (S m). split; [|split].
      * unfold progress_lines in *. rewrite omap_app, Hstep, Hm. reflexivity.
      * intros Hr. now rewrite (Hret Hr).
      * intros e He. specialize (Hraise e He). lia.
    + exists 0. rewrite Hstep. simpl. repeat split; [discriminate|lia].
Qed.

(** X2.  The progress lines of a run count the items it got through: they
    carry the counters 1, 2, ..., m in this order, each with the length of the
    whole input as the total; m is the length of the input when the run
    returns, and less when it raises (the item that raised has no line). *)
Theorem progress_lines_count_the_items (w : World) (data : list Item) (s : Store) :
  exists m : nat,
    progress_lines (trace (ingest w data s))
    = map (fun i => (i, length data)) (seq 1 m) /\
    (outcome (ingest w data s) = Returned tt -> m = length data) /\
    (forall e, outcome (ingest w data s) = Raised e -> m < length data).
Proof. exact (ingest_loop_progress w (length data) data 0 s). Qed.

Example progress_of_a_run_that_raises :
  progress_lines (trace (ingest (second_write_fails three_items) three_items []))
  = [(1, 3)].
Proof. vm_compute. reflexivity. Qed.

Lemma count_app (f : Event -> bool) (t1 t2 : Trace) :
  length (List.filter f (t1 ++ t2))
  = length (List.filter f t1) + length (List.filter f t2).
Proof. now rewrite List.filter_app, length_app. Qed.

Lemma ingest_item_calls (w : World) (total n : nat) (item : Item) (s : Store) :
  lookup_calls (trace (ingest_item w total n item s)) <= 1 /\
  save_calls (trace (ingest_item w total n item s))
  <= lookup_calls (trace (ingest_item w total n item s)) /\
  embedding_calls (trace (ingest_item w total n item s))
  = save_calls (trace (ingest_item w total n item s)) /\
  write_calls (trace (ingest_item w total n item s))
  <= embedding_calls (trace (ingest_item w total n item s)).
Proof.
  destruct (ingest_item_cases w total n item s) as [| | |k x Hid Hp Hx];
    try (cbv; repeat split; lia).
  destruct Hx; cbv; repeat split; lia.
Qed.

Lemma ingest_loop_calls (w : World) (total : nat) (data : list Item) :
  forall (n : nat) (s : Store),
    lookup_calls (trace (ingest_loop w total n data s)) <= length data /\
    save_calls (trace (ingest_loop w total n data s))
    <= lookup_calls (trace (ingest_loop w total n data s)) /\
    embedding_calls (trace (ingest_loop w total n data s))
    = save_calls (trace (ingest_loop w total n data s)) /\
    write_calls (trace (ingest_loop w total n data s))
    <= embedding_calls (trace (ingest_loop w total n data s)).
Proof.
  induction data as [|item rest IH]; intros n s.
  - cbv. repeat split; lia.
  - rewrite ingest_loop_cons.
    pose proof (ingest_item_calls w total (S n) item s) as (H1 & H2 & H3 & H4).
    destruct (ingest_item w total (S n) item s) as [[[[]|e] s1] t1];
      cbn [trace snd] in *.
    + destruct (IH (S n) s1) as (H5 & H6 & H7 & H8).
      destruct (ingest_loop w total (S n) rest s1) as [[r2 s2] t2];
        cbn [trace snd] in *.
      unfold lookup_calls, save_calls, embedding_calls, write_calls in *.
      rewrite !count_app. cbn [length]. repeat split; lia.
    + cbn [length]. repeat split; lia.
Qed.

(** X8.  A run costs at most one lookup per input item; [save_information] is
    called only for an item that was looked up, at most once; every call of it
    makes exactly one embedding call; and there are never more writes than
    embedding calls.  This holds in every world and however the run ends. *)
Theorem calls_are_bounded_by_the_input (w : World) (data : list Item) (s : Store) :
  lookup_calls (trace (ingest w data s)) <= length data /\
  save_calls (trace (ingest w data s)) <= lookup_calls (trace (ingest w data s)) /\
  embedding_calls (trace (ingest w data s)) = save_calls (trace (ingest w data s)) /\
  write_calls (trace (ingest w data s)) <= embedding_calls (trace (ingest w data s)).
Proof. exact (ingest_loop_calls w (length data) data 0 s). Qed.

(** ** How a conversation ends *)

Lemma search_calls_fragments (fragments : list string) :
  search_calls (fragment_events fragments) = [].
Proof. induction fragments as [|f rest IH]; [reflexivity|exact IH]. Qed.

Lemma inputs_read_fragments (fragments : list string) :
  inputs_read (fragment_events fragments) = [].
Proof. induction fragments as [|f rest IH]; [reflexivity|exact IH]. Qed.

Lemma sleep_seconds_fragments (fragments : list string) :
  sleep_seconds (fragment_events fragments) = 0.
Proof. induction fragments as [|f rest IH]; [reflexivity|exact IH]. Qed.

Lemma sleep_seconds_app (t1 t2 : Trace) :
  sleep_seconds (t1 ++ t2) = sleep_seconds t1 + sleep_seconds t2.
Proof. unfold sleep_seconds. now rewrite omap_app, list_sum_app. Qed.

(** A turn searches for its line, once, and reads no input. *)
Lemma turn_reads (k : Kernel) (line : string) :
  search_calls (trace (turn k line tt)) = [line] /\
  inputs_read (trace (turn k line tt)) = [].
Proof.
  destruct (memory_search k line) as [e|[|r others]] eqn:Hs.
  - now rewrite (turn_search_fault k line e Hs).
  - now rewrite (turn_without_result k line Hs).
  - rewrite (turn_grounded k line r others Hs). simpl.
    unfold search_calls, inputs_read.
    rewrite !omap_app.
    fold (search_calls (fragment_events
            (fst (invoke_stream k chat_function
                    (mkKernelArguments line (additional_metadata r)))))).
    fold (inputs_read (fragment_events
            (fst (invoke_stream k chat_function
                    (mkKernelArguments line (additional_metadata r)))))).
    rewrite search_calls_fragments, inputs_read_fragments.
    now destruct (snd (invoke_stream k chat_function _)).
Qed.

(** A turn that returns made one completion call, and slept five seconds. *)
Lemma turn_returned (k : Kernel) (line : string) :
  outcome (turn k line tt) = Returned tt ->
  length (completion_calls (trace (turn k line tt))) = 1 /\
  sleep_seconds (trace (turn k line tt)) = 5.
Proof.
  destruct (memory_search k line) as [e|[|r others]] eqn:Hs.
  - now rewrite (turn_search_fault k line e Hs).
  - now rewrite (turn_without_result k line Hs).
  - rewrite (turn_grounded k line r others Hs). cbn [outcome trace fst snd].
    destruct (snd (invoke_stream k chat_function _)); [discriminate|].
    intros _. split.
    + rewrite !completion_calls_app, completion_calls_fragments. reflexivity.
    + rewrite !sleep_seconds_app, sleep_seconds_fragments. reflexivity.
Qed.

Lemma conversation_loop_reads (k : Kernel) (stdin : list string) :
  forall current : string,
    search_calls (trace (conversation_loop k current stdin))
    = inputs_read (trace (conversation_loop k current stdin)) /\
    inputs_read (trace (conversation_loop k current stdin))
    ++ final (conversation_loop k current stdin) = stdin.
Proof.
  induction stdin as [|line rest IH]; intros current.
  - simpl. now destruct (String.eqb current "exit").
  - destruct (String.eqb current "exit") eqn:Hc.
    + simpl. rewrite Hc. now split.
    + rewrite (conversation_loop_cons k current line rest Hc).
      destruct (turn_reads k line) as [Hsearch Hread].
      destruct (IH line) as [IH1 IH2].
      destruct (turn k line tt) as [[[[]|e] u] t]; simpl in *.
      * unfold search_calls, inputs_read in *.
        rewrite !omap_app, Hsearch, Hread, IH1. simpl. split; [reflexivity|].
        now rewrite IH2.
      * unfold search_calls, inputs_read in *.
        rewrite Hsearch, Hread. now split.
Qed.

(** X10.  Whatever the kernel does and however the conversation ends, the
    lines it read are the first lines of stdin, in order, with nothing skipped
    (lines read, then lines left, is stdin); and every line read was searched
    for exactly once and as it was typed: an empty line and the sentinel
    included. *)
Theorem every_line_read_is_searched (k : Kernel) (stdin : list string) :
  search_calls (trace (conversation k stdin))
  = inputs_read (trace (conversation k stdin)) /\
  inputs_read (trace (conversation k stdin)) ++ final (conversation k stdin) = stdin.
Proof. exact (conversation_loop_reads k stdin ""). Qed.

Example empty_line_is_searched :
  search_calls (trace (conversation (kernel_of [record_sql]) [""; "exit"; "late"]))
  = [""; "exit"] /\
  final (conversation (kernel_of [record_sql]) [""; "exit"; "late"]) = ["late"].
Proof. vm_compute. split; reflexivity. Qed.

(** The loop over lines that are not the sentinel and whose turns return: it
    gets through them and goes on with what follows, the sentinel not seen. *)
Lemma conversation_loop_through (k : Kernel) (pre more : list string) :
  Forall (fun line => line <> "exit") pre ->
  Forall (fun line => outcome (turn k line tt) = Returned tt) pre ->
  forall current : string,
    String.eqb current "exit" = false ->
    exists seen : string,
      String.eqb seen "exit" = false /\
      conversation_loop k current (pre ++ more)
      = (outcome (conversation_loop k seen more),
         final (conversation_loop k seen more),
         turns_trace k pre ++ trace (conversation_loop k seen more)).
Proof.
  intros Hne Hok. revert Hok.
  induction Hne as [|line pre Hline Hne IH]; intros Hok current Hc.
  - exists current. split; [exact Hc|].
    simpl. now destruct (conversation_loop k current more) as [[r remaining] t].
  - inversion Hok as [|? ? Hturn Hok']; subst.
    apply String.eqb_neq in Hline.
    destruct (IH Hok' line Hline) as (seen & Hseen & Heq).
    exists seen. split; [exact Hseen|].
    change ((line :: pre) ++ more) with (line :: (pre ++ more)).
    rewrite (conversation_loop_cons k current line (pre ++ more) Hc).
    change (turns_trace k (line :: pre))
      with ((EvInput line :: trace (turn k line tt)) ++ turns_trace k pre).
    destruct (turn k line tt) as [[[[]|e] u] t]; simpl in Hturn; [|discriminate].
    rewrite Heq. simpl. now rewrite <- app_assoc.
Qed.

Lemma turns_trace_counts (k : Kernel) (lines : list string) :
  Forall (fun line => outcome (turn k line tt) = Returned tt) lines ->
  length (completion_calls (turns_trace k lines)) = length lines /\
  sleep_seconds (turns_trace k lines) = 5 * length lines.
Proof.
  intros Hok. induction Hok as [|line l Hturn Hok [IH1 IH2]]; [now split|].
  destruct (turn_returned k line Hturn) as [Hc Hs].
  change (turns_trace k (line :: l))
    with ([EvInput line] ++ trace (turn k line tt) ++ turns_trace k l).
  rewrite !completion_calls_app, !sleep_seconds_app, !length_app.
  rewrite Hc, Hs, IH1, IH2. simpl. split; lia.
Qed.

(** X11.  A conversation whose turns all return ends at the first line that is
    "exit": it returns normally, the lines after that line are left unread,
    and the sentinel's own turn is made like the others, so that with [pre]
    lines before the sentinel the session makes [length pre + 1] completion
    calls and sleeps five seconds as many times, the last one before it
    ends. *)
Theorem conversation_ends_at_the_first_exit (k : Kernel) (pre rest : list string) :
  Forall (fun line => line <> "exit") pre ->
  Forall (fun line => outcome (turn k line tt) = Returned tt) (pre ++ ["exit"]) ->
  conversation k (pre ++ "exit" :: rest)
  = (Returned tt, rest, turns_trace k (pre ++ ["exit"])) /\
  length (completion_calls (turns_trace k (pre ++ ["exit"]))) = length pre + 1 /\
  sleep_seconds (turns_trace k (pre ++ ["exit"])) = 5 * (length pre + 1).
Proof.
  intros Hne Hok. split.
  - apply Forall_app in Hok as [Hpre Hexit].
    inversion Hexit as [|? ? Hturn _]; subst.
    destruct (conversation_loop_through k pre ("exit" :: rest) Hne Hpre "" eq_refl)
      as (seen & Hseen & Heq).
    unfold conversation. rewrite Heq.
    rewrite (conversation_loop_cons k seen "exit" rest Hseen).
    rewrite conversation_loop_exit.
    unfold turns_trace. rewrite flat_map_app. simpl.
    destruct (turn k "exit" tt) as [[[[]|e] u] t]; simpl in *; [|discriminate].
    now rewrite !app_nil_r.
  - destruct (turns_trace_counts k (pre ++ ["exit"]) Hok) as [Hc Hs].
    rewrite Hc, Hs, length_app. simpl. split; lia.
Qed.

Lemma conversation_ends_at_the_first_exit_witness :
  conversation (kernel_of [record_sql]) (["Hey"; "Exit"] ++ "exit" :: ["late"; "later"])
  = (Returned tt, ["late"; "later"],
     turns_trace (kernel_of [record_sql]) (["Hey"; "Exit"] ++ ["exit"])) /\
  length (completion_calls (turns_trace (kernel_of [record_sql])
                              (["Hey"; "Exit"] ++ ["exit"])))
  = length ["Hey"; "Exit"] + 1 /\
  sleep_seconds (turns_trace (kernel_of [record_sql]) (["Hey"; "Exit"] ++ ["exit"]))
  = 5 * (length ["Hey"; "Exit"] + 1).
Proof.
  apply (conversation_ends_at_the_first_exit (kernel_of [record_sql])
           ["Hey"; "Exit"] ["late"; "later"]).
  - repeat constructor; discriminate.
  - repeat constructor; vm_compute; reflexivity.
Defined.

(** X12.  When stdin runs out before a line "exit" was read, and every turn
    returned, the conversation does not end normally: [input] raises
    [EOFError] after the turn of the last line, with every line read and its
    turn made. *)
Theorem conversation_without_exit_raises_EOFError (k : Kernel) (stdin : list string) :
  Forall (fun line => line <> "exit") stdin ->
  Forall (fun line => outcome (turn k line tt) = Returned tt) stdin ->
  conversation k stdin = (Raised EOFError, [], turns_trace k stdin).
Proof.
  intros Hne Hok.
  destruct (conversation_loop_through k stdin [] Hne Hok "" eq_refl)
    as (seen & Hseen & Heq).
  unfold conversation. rewrite <- (app_nil_r stdin) at 1. rewrite Heq.
  simpl. rewrite Hseen. simpl. now rewrite app_nil_r.
Qed.

Lemma conversation_without_exit_raises_EOFError_witness :
  conversation (kernel_of [record_sql]) ["Hey"; "EXIT"; "quit"]
  = (Raised EOFError, [], turns_trace (kernel_of [record_sql]) ["Hey"; "EXIT"; "quit"]).
Proof.
  apply (conversation_without_exit_raises_EOFError (kernel_of [record_sql])
           ["Hey"; "EXIT"; "quit"]).
  - repeat constructor; discriminate.
  - repeat constructor; vm_compute; reflexivity.
Defined.

(** The loop at a line whose turn raises. *)
Lemma conversation_loop_raises_at (k : Kernel) (pre rest : list string)
    (line : string) (e : PyExc) (t : Trace) :
  Forall (fun l => l <> "exit") pre ->
  Forall (fun l => outcome (turn k l tt) = Returned tt) pre ->
  turn k line tt = (Raised e, tt, t) ->
  conversation k (pre ++ line :: rest)
  = (Raised e, rest, turns_trace k pre ++ EvInput line :: t).
Proof.
  intros Hne Hok Hturn.
  destruct (conversation_loop_through k pre (line :: rest) Hne Hok "" eq_refl)
    as (seen & Hseen & Heq).
  unfold conversation. rewrite Heq.
  now rewrite (conversation_loop_cons k seen line rest Hseen), Hturn.
Qed.

(** X13.  A fault of the search ends the session: it is raised out of the loop
    right after the search call, no completion is invoked and nothing is
    printed for the line, and the lines after it are left unread. *)
Theorem search_fault_ends_the_session (k : Kernel) (pre rest : list string)
    (line : string) (e : PyExc) :
  Forall (fun l => l <> "exit") pre ->
  Forall (fun l => outcome (turn k l tt) = Returned tt) pre ->
  memory_search k line = inl e ->
  conversation k (pre ++ line :: rest)
  = (Raised e, rest, turns_trace k pre ++ [EvInput line; EvSearch line]).
Proof.
  intros Hne Hok Hs.
  exact (conversation_loop_raises_at k pre rest line e [EvSearch line] Hne Hok
           (turn_search_fault k line e Hs)).
Qed.

Lemma search_fault_ends_the_session_witness :
  conversation (flaky_kernel [record_sql]) (["Hey"] ++ "down" :: ["exit"])
  = (Raised (ServiceError "search unavailable"), ["exit"],
     turns_trace (flaky_kernel [record_sql]) ["Hey"]
     ++ [EvInput "down"; EvSearch "down"]).
Proof.
  apply (search_fault_ends_the_session (flaky_kernel [record_sql]) ["Hey"] ["exit"]
           "down" (ServiceError "search unavailable")).
  - repeat constructor; discriminate.
  - repeat constructor; vm_compute; reflexivity.
  - reflexivity.
Defined.

(** X14.  A completion stream that breaks ends the session: the fragments that
    arrived before the fault are printed after the question, then the fault is
    raised out of the loop; the closing newlines are not printed, the loop
    does not sleep, and the lines after it are left unread. *)
Theorem stream_fault_ends_the_session (k : Kernel) (pre rest : list string)
    (line : string) (r : MemoryQueryResult) (others : list MemoryQueryResult)
    (e : PyExc) :
  Forall (fun l => l <> "exit") pre ->
  Forall (fun l => outcome (turn k l tt) = Returned tt) pre ->
  memory_search k line = inr (r :: others) ->
  snd (invoke_stream k chat_function
         (mkKernelArguments line (additional_metadata r))) = Some e ->
  conversation k (pre ++ line :: rest)
  = (Raised e, rest,
     turns_trace k pre
     ++ [EvInput line; EvSearch line;
         EvInvokeStream chat_function (mkKernelArguments line (additional_metadata r));
         EvPrint (PQuestion line)]
     ++ fragment_events (fst (invoke_stream k chat_function
                                (mkKernelArguments line (additional_metadata r))))).
Proof.
  intros Hne Hok Hs Hstream.
  rewrite (conversation_loop_raises_at k pre rest line e
             ([EvSearch line;
               EvInvokeStream chat_function
                 (mkKernelArguments line (additional_metadata r));
               EvPrint (PQuestion line)]
              ++ fragment_events (fst (invoke_stream k chat_function
                    (mkKernelArguments line (additional_metadata r))))) Hne Hok).
  - reflexivity.
  - rewrite (turn_grounded k line r others Hs), Hstream. now rewrite app_nil_r.
Qed.

Lemma stream_fault_ends_the_session_witness :
  conversation (flaky_kernel [record_sql]) (["Hey"] ++ "cut" :: ["exit"])
  = (Raised (ServiceError "stream broken"), ["exit"],
     turns_trace (flaky_kernel [record_sql]) ["Hey"]
     ++ [EvInput "cut"; EvSearch "cut";
         EvInvokeStream chat_function (mkKernelArguments "cut" (Some "T"));
         EvPrint (PQuestion "cut")]
     ++ fragment_events ["Hel"]).
Proof.
  apply (stream_fault_ends_the_session (flaky_kernel [record_sql]) ["Hey"] ["exit"] "cut"
           (mkMemoryQueryResult "1"
              "Azure SQL Managed Instance is a managed SQL Server." "T"
              (Some "T") (inject_Z 154)) []
           (ServiceError "stream broken")).
  - repeat constructor; discriminate.
  - repeat constructor; vm_compute; reflexivity.
  - vm_compute. reflexivity.
  - reflexivity.
Defined.
